(** * Bluepad32 Arduino front end: connection lifecycle and usage parsing

    A shallow embedding of [src/main/arduino_bluepad32.cpp]
    ([Bluepad32::Bluepad32], [Bluepad32::update], [Bluepad32::setup]) and of
    the parser interface declared in
    [components/bluepad32/include/parser/uni_hid_parser_android.h].

    Conventions.
    - C [int] values are [Z]; every shift amount of [update] is a slot index
      below [ARDUINO_MAX_GAMEPADS].  With at most 31 slots no wrap-around is
      reachable: [poll_mask_int_range] bounds the presence bitmask, and
      [update32], the same pass with every operation reduced to 32 bits, is
      proved equal to [update].  Beyond 31 slots the C++ shift overflows and
      the model no longer speaks for the code.
    - The array [_gamepads] is a list accessed with stdpp's lookup and insert;
      an access outside the list (undefined behaviour in C++) makes the
      model return [None].
    - A callback receives a pointer to [_gamepads[i]]: it is modelled as a
      function of the slot index and the pointee that may update the pointee
      and the application's own state.  The constructor leaves both callbacks
      empty; calling a callback that was never registered makes the model
      return [None].
    - Every callback invocation is recorded, with its argument as it is at the
      time of the call, in a log; [logi] output is not modelled. *)

From Stdlib Require Import ZArith List Lia Bool Sorted.
From stdpp Require Import base option list.
Import ListNotations.

(** ** Data model *)

(** Modelled from the spec: the Canonical Gamepad State of section 3, whose
    struct declaration is missing: directional pad, the two sticks, the two
    analog triggers, the digital buttons as a bit set, the system buttons
    and the battery level. *)
Record uni_gamepad_t := {
  dpad : Z;
  axis_x : Z;
  axis_y : Z;
  axis_rx : Z;
  axis_ry : Z;
  brake : Z;
  throttle : Z;
  buttons : Z;
  misc_buttons : Z;
  battery : Z
}.

(** The per-slot snapshot handed out by the platform.  [update] reads its
    [idx] field only: [-1] marks an empty slot. *)
Record arduino_gamepad_data_t := {
  idx : Z;
  gamepad : uni_gamepad_t
}.

(** One entry of [Bluepad32::_gamepads]. *)
Record Gamepad := {
  _connected : bool;
  _state : arduino_gamepad_data_t
}.

(** A recorded callback invocation: which callback, for which slot, and the
    pointee as the callback finds it. *)
Inductive Event :=
| Connected (i : nat) (g : Gamepad)
| Disconnected (i : nat) (g : Gamepad).

Definition event_slot (e : Event) : nat :=
  match e with Connected i _ | Disconnected i _ => i end.

Definition event_gamepad (e : Event) : Gamepad :=
  match e with Connected _ g | Disconnected _ g => g end.

Definition is_connect (e : Event) : bool :=
  match e with Connected _ _ => true | Disconnected _ _ => false end.

(** [for (int i = 0; i < n; i++) body], threading the loop state and
    stopping at the first failure. *)
Fixpoint for_slots {St : Type} (body : nat -> St -> option St)
    (n : nat) (s : St) : option St :=
  match n with
  | O => Some s
  | S k =>
      match for_slots body k s with
      | Some s' => body k s'
      | None => None
      end
  end.

(** The platform collaborator of one pass: [arduino_get_gamepad_data(i, out)]
    as a function of the slot index and the previous contents of [*out]. *)
Definition Platform := nat -> arduino_gamepad_data_t -> arduino_gamepad_data_t.

Definition set_state (g : Gamepad) (s : arduino_gamepad_data_t) : Gamepad :=
  {| _connected := _connected g; _state := s |}.

Definition set_connected (g : Gamepad) (b : bool) : Gamepad :=
  {| _connected := b; _state := _state g |}.

(** [arduino_get_gamepad_data(i, &_gamepads[i]._state)] seen from the entry. *)
Definition refresh (platform : Platform) (i : nat) (g : Gamepad) : Gamepad :=
  set_state g (platform i (_state g)).

(** Body of the first loop of [update]. *)
Definition poll_body (platform : Platform) (i : nat)
    (st : list Gamepad * Z) : option (list Gamepad * Z) :=
  let '(gs, connectedGamepads) := st in
  match gs !! i with
  | None => None
  | Some g =>
      let gs' := <[i := refresh platform i g]> gs in
      match gs' !! i with
      | None => None
      | Some g' =>
          if negb (idx (_state g') =? -1)%Z
          then Some (gs', Z.lor connectedGamepads (Z.shiftl 1 (Z.of_nat i)))
          else Some (gs', connectedGamepads)
      end
  end.

(** The first loop of [update]: the refreshed table and [connectedGamepads]. *)
Definition poll (n : nat) (platform : Platform) (gs : list Gamepad)
    : option (list Gamepad * Z) :=
  for_slots (poll_body platform) n (gs, 0%Z).

Section Lifecycle.

(** The application's own state, which the callbacks may change. *)
Context {App : Type}.

(** The capacity of the slot table, a build-time constant. *)
Variable ARDUINO_MAX_GAMEPADS : nat.

Definition GamepadCallback : Type := nat -> Gamepad -> App -> Gamepad * App.

Record Bluepad32 := {
  _prevConnectedGamepads : Z;
  _gamepads : list Gamepad;
  _onConnect : option GamepadCallback;
  _onDisconnect : option GamepadCallback
}.

(** [Bluepad32::Bluepad32()]; [g0] is a value-initialised [Gamepad]. *)
Definition Bluepad32_new (g0 : Gamepad) : Bluepad32 :=
  {| _prevConnectedGamepads := 0;
     _gamepads := replicate ARDUINO_MAX_GAMEPADS g0;
     _onConnect := None;
     _onDisconnect := None |}.

(** [Bluepad32::setup]. *)
Definition setup (bp : Bluepad32) (onConnect onDisconnect : GamepadCallback)
    : Bluepad32 :=
  {| _prevConnectedGamepads := _prevConnectedGamepads bp;
     _gamepads := _gamepads bp;
     _onConnect := Some onConnect;
     _onDisconnect := Some onDisconnect |}.

(** A sequence of calls to [setup], oldest first. *)
Definition setup_all (bp : Bluepad32)
    (regs : list (GamepadCallback * GamepadCallback)) : Bluepad32 :=
  fold_left (fun b r => setup b (fst r) (snd r)) regs bp.

(** Body of the second loop of [update]; [prevConnectedGamepads] and the
    two callbacks are those of the object when the pass starts. *)
Definition notify_body (bp : Bluepad32) (connectedGamepads : Z) (i : nat)
    (st : list Gamepad * App * list Event)
    : option (list Gamepad * App * list Event) :=
  let '(gs, app, log) := st in
  let bit := Z.shiftl 1 (Z.of_nat i) in
  let current := Z.land connectedGamepads bit in
  let prev := Z.land (_prevConnectedGamepads bp) bit in
  if (current =? prev)%Z then Some st
  else
    match gs !! i with
    | None => None
    | Some g =>
        if negb (current =? 0)%Z then
          let g1 := set_connected g true in
          match _onConnect bp with
          | None => None
          | Some cb =>
              let '(g2, app') := cb i g1 app in
              Some (<[i := g2]> gs, app', log ++ [Connected i g1])
          end
        else
          match _onDisconnect bp with
          | None => None
          | Some cb =>
              let '(g1, app') := cb i g app in
              Some (<[i := set_connected g1 false]> gs, app',
                    log ++ [Disconnected i g])
          end
    end.

(** The second loop of [update]. *)
Definition notify (bp : Bluepad32) (connectedGamepads : Z)
    (gs : list Gamepad) (app : App)
    : option (list Gamepad * App * list Event) :=
  for_slots (notify_body bp connectedGamepads) ARDUINO_MAX_GAMEPADS
            (gs, app, []).

(** [Bluepad32::update]: the object and the application state after the
    pass, together with the callback invocations it made, in order. *)
Definition update (platform : Platform) (bp : Bluepad32) (app : App)
    : option (Bluepad32 * App * list Event) :=
  match poll ARDUINO_MAX_GAMEPADS platform (_gamepads bp) with
  | None => None
  | Some (gs, connectedGamepads) =>
      if (connectedGamepads =? _prevConnectedGamepads bp)%Z then
        Some ({| _prevConnectedGamepads := _prevConnectedGamepads bp;
                 _gamepads := gs;
                 _onConnect := _onConnect bp;
                 _onDisconnect := _onDisconnect bp |}, app, [])
      else
        match notify bp connectedGamepads gs app with
        | None => None
        | Some (gs', app', log) =>
            Some ({| _prevConnectedGamepads := connectedGamepads;
                     _gamepads := gs';
                     _onConnect := _onConnect bp;
                     _onDisconnect := _onDisconnect bp |}, app', log)
        end
  end.

End Lifecycle.

(** ** The variant parser (Android)

    The header declares [uni_hid_parser_android_init_report] and
    [uni_hid_parser_android_parse_usage]; their bodies, [hid_globals_t] and
    the usage constants live in other files. *)

(** Modelled from the spec: the Usage-Scaling Context of section 3, whose
    declaration [hid_globals_t] is missing. *)
Record hid_globals_t := {
  logical_min : Z;
  logical_max : Z;
  physical_min : Z;
  physical_max : Z;
  unit_exponent : Z
}.

(** Modelled from the spec: the idle state of section 4.1, missing with the
    body of [init_report]: all buttons released, sticks centered, triggers at
    rest, dpad centered, battery unknown. *)
Definition idle_gamepad : uni_gamepad_t :=
  {| dpad := 0; axis_x := 0; axis_y := 0; axis_rx := 0; axis_ry := 0;
     brake := 0; throttle := 0; buttons := 0; misc_buttons := 0;
     battery := 0 |}.

(** Modelled from the spec: the body of [init_report], which is missing; it
    fully overwrites the target state with the idle state. *)
Definition uni_hid_parser_android_init_report (d : uni_gamepad_t)
    : uni_gamepad_t :=
  idle_gamepad.

(** The analog fields of the canonical state. *)
Inductive analog_field :=
| AxisX | AxisY | AxisRX | AxisRY | Brake | Throttle.

Definition read_field (f : analog_field) (d : uni_gamepad_t) : Z :=
  match f with
  | AxisX => axis_x d
  | AxisY => axis_y d
  | AxisRX => axis_rx d
  | AxisRY => axis_ry d
  | Brake => brake d
  | Throttle => throttle d
  end.

Definition store_field (f : analog_field) (v : Z) (d : uni_gamepad_t)
    : uni_gamepad_t :=
  {| dpad := dpad d;
     axis_x := match f with AxisX => v | _ => axis_x d end;
     axis_y := match f with AxisY => v | _ => axis_y d end;
     axis_rx := match f with AxisRX => v | _ => axis_rx d end;
     axis_ry := match f with AxisRY => v | _ => axis_ry d end;
     brake := match f with Brake => v | _ => brake d end;
     throttle := match f with Throttle => v | _ => throttle d end;
     buttons := buttons d;
     misc_buttons := misc_buttons d;
     battery := battery d |}.

(** What a recognized usage updates: an analog field, written after
    normalization, or another part of the state (hat switch, buttons,
    battery), whose decoding is left to a handler. *)
Inductive usage_target :=
| Analog (f : analog_field)
| Other (h : hid_globals_t -> Z -> uni_gamepad_t -> uni_gamepad_t).

Definition clamp (lo hi v : Z) : Z := Z.max lo (Z.min hi v).

(** Integer division as the C operator has it: truncating, and undefined
    (here [None]) for a zero divisor. *)
Definition checked_quot (a b : Z) : option Z :=
  if (b =? 0)%Z then None else Some (Z.quot a b).

(** ** Concrete instances used to exercise the definitions *)

Definition pressed_gamepad : uni_gamepad_t :=
  {| dpad := 0; axis_x := 0; axis_y := 0; axis_rx := 0; axis_ry := 0;
     brake := 0; throttle := 0; buttons := 1; misc_buttons := 0;
     battery := 0 |}.

Definition empty_slot : arduino_gamepad_data_t :=
  {| idx := -1; gamepad := idle_gamepad |}.

Definition default_gamepad : Gamepad :=
  {| _connected := false; _state := {| idx := 0; gamepad := idle_gamepad |} |}.

(** A platform on which exactly the slots of [present] hold a controller,
    each with one button held down. *)
Definition platform_with (present : list nat) : Platform :=
  fun i _ =>
    if existsb (Nat.eqb i) present
    then {| idx := Z.of_nat i; gamepad := pressed_gamepad |}
    else empty_slot.

(** Callbacks that leave the gamepad alone and count their invocations. *)
Definition count_connect : @GamepadCallback (nat * nat) :=
  fun _ g app => (g, (S (fst app), snd app)).

Definition count_disconnect : @GamepadCallback (nat * nat) :=
  fun _ g app => (g, (fst app, S (snd app))).

Definition bp_ready (n : nat) : @Bluepad32 (nat * nat) :=
  setup (Bluepad32_new n default_gamepad) count_connect count_disconnect.

(** The object after one completed pass, or unchanged if the pass fails. *)
Definition after_pass (n : nat) (platform : Platform)
    (bp : @Bluepad32 (nat * nat)) : @Bluepad32 (nat * nat) :=
  match update n platform bp (0, 0)%nat with
  | Some (bp', _, _) => bp'
  | None => bp
  end.

(** The entry of a live slot whose controller has one button held down. *)
Definition live_gamepad (i : nat) : Gamepad :=
  {| _connected := true;
     _state := {| idx := Z.of_nat i; gamepad := pressed_gamepad |} |}.

(** Four slots; controllers have just appeared in slots 0 and 2. *)
Definition bp_two_live : @Bluepad32 (nat * nat) :=
  after_pass 4 (platform_with [0; 2]%nat) (bp_ready 4).

Definition two_live_log : list Event :=
  [Connected 0 (live_gamepad 0); Connected 2 (live_gamepad 2)].

(** A sample Android usage table: two sticks and two triggers. *)
Definition sample_table (usage_page usage : Z) : option usage_target :=
  if (usage_page =? 1)%Z then
    if (usage =? 48)%Z then Some (Analog AxisX)
    else if (usage =? 49)%Z then Some (Analog AxisY)
    else if (usage =? 50)%Z then Some (Analog AxisRX)
    else if (usage =? 53)%Z then Some (Analog AxisRY)
    else None
  else if (usage_page =? 2)%Z then
    if (usage =? 196)%Z then Some (Analog Throttle)
    else if (usage =? 197)%Z then Some (Analog Brake)
    else None
  else None.

Definition byte_range : hid_globals_t :=
  {| logical_min := 0; logical_max := 255; physical_min := 0;
     physical_max := 255; unit_exponent := 0 |}.

Definition flat_range : hid_globals_t :=
  {| logical_min := 7; logical_max := 7; physical_min := 0;
     physical_max := 0; unit_exponent := 0 |}.

(** ** Specification-level views of one pass *)

(** Whether the snapshot fetched into slot [i] shows a controller. *)
Definition presence (platform : Platform) (gs : list Gamepad) (i : nat)
    : bool :=
  match gs !! i with
  | Some g => negb (idx (platform i (_state g)) =? -1)%Z
  | None => false
  end.

(** The table after the first [n] slots have been refreshed. *)
Definition polled_upto (platform : Platform) (n : nat) (gs : list Gamepad)
    : list Gamepad :=
  imap (fun i g => if (i <? n)%nat then refresh platform i g else g) gs.

(** The notification owed to slot [i], given the previous bitmask, the
    current one and the refreshed table. *)
Definition slot_event (prev connected : Z) (gs : list Gamepad) (i : nat)
    : option Event :=
  if Bool.eqb (Z.testbit connected (Z.of_nat i)) (Z.testbit prev (Z.of_nat i))
  then None
  else
    match gs !! i with
    | None => None
    | Some g =>
        if Z.testbit connected (Z.of_nat i)
        then Some (Connected i (set_connected g true))
        else Some (Disconnected i g)
    end.

Definition pass_log (prev connected : Z) (gs : list Gamepad) (n : nat)
    : list Event :=
  omap (slot_event prev connected gs) (seq 0 n).

(** The notifications of a log that concern slot [i]. *)
Definition events_of (i : nat) (log : list Event) : list Event :=
  List.filter (fun e => Nat.eqb (event_slot e) i) log.

(** The idle predicate of the spec on a table entry. *)
Definition is_idle (g : Gamepad) : Prop :=
  gamepad (_state g)
  = uni_hid_parser_android_init_report (gamepad (_state g)).

(** What the second loop leaves in slot [i] once it has gone past it: an
    unchanged slot keeps its refreshed entry, a disconnected slot is marked
    not live. *)
Definition slot_settled (prev connected : Z) (gs1 gs' : list Gamepad)
    (i : nat) : Prop :=
  if Bool.eqb (Z.testbit connected (Z.of_nat i)) (Z.testbit prev (Z.of_nat i))
  then gs' !! i = gs1 !! i
  else if Z.testbit connected (Z.of_nat i)
       then is_Some (gs' !! i)
       else exists g, gs' !! i = Some g /\ _connected g = false.

(** Invariant of the second loop after [k] iterations, started on the
    refreshed table [gs1]. *)
Definition notify_inv {App : Type} (prev connected : Z) (gs1 : list Gamepad)
    (k : nat) (st : list Gamepad * App * list Event) : Prop :=
  let '(gs', _, log) := st in
  log = pass_log prev connected gs1 k
  /\ length gs' = length gs1
  /\ (forall j, k <= j -> gs' !! j = gs1 !! j)
  /\ (forall i, i < k -> slot_settled prev connected gs1 gs' i).

(** Invariant of the first loop after [k] iterations. *)
Definition poll_inv (platform : Platform) (gs : list Gamepad) (k : nat)
    (st : list Gamepad * Z) : Prop :=
  fst st = polled_upto platform k gs
  /\ k <= length gs
  /\ (0 <= snd st < 2 ^ Z.of_nat k)%Z
  /\ forall i : nat,
       Z.testbit (snd st) (Z.of_nat i)
       = (i <? k)%nat && presence platform gs i.

(** ** Successive passes and the effect of the callbacks *)

(** [Bluepad32::forgetBluetoothKeys]: not implemented, the object is left
    as it is. *)
Definition forgetBluetoothKeys {App : Type} (bp : @Bluepad32 App)
    : @Bluepad32 App :=
  bp.

(** Successive calls of [update], one per state of the platform, oldest
    first; the logs are concatenated. *)
Fixpoint run_passes {App : Type} (n : nat) (platforms : list Platform)
    (bp : @Bluepad32 App) (app : App)
    : option (@Bluepad32 App * App * list Event) :=
  match platforms with
  | [] => Some (bp, app, [])
  | p :: ps =>
      match update n p bp app with
      | None => None
      | Some (bp1, app1, log1) =>
          match run_passes n ps bp1 app1 with
          | None => None
          | Some (bp2, app2, log2) => Some (bp2, app2, log1 ++ log2)
          end
      end
  end.

(** The three components of the outcome of a run; a run that does not
    complete leaves its inputs. *)
Definition run_bp {App : Type} (n : nat) (platforms : list Platform)
    (bp : @Bluepad32 App) (app : App) : @Bluepad32 App :=
  match run_passes n platforms bp app with
  | Some (bp', _, _) => bp'
  | None => bp
  end.

Definition run_app {App : Type} (n : nat) (platforms : list Platform)
    (bp : @Bluepad32 App) (app : App) : App :=
  match run_passes n platforms bp app with
  | Some (_, app', _) => app'
  | None => app
  end.

Definition run_log {App : Type} (n : nat) (platforms : list Platform)
    (bp : @Bluepad32 App) (app : App) : list Event :=
  match run_passes n platforms bp app with
  | Some (_, _, log) => log
  | None => []
  end.

(** The member that a logged invocation went through. *)
Definition callback_for {App : Type} (bp : @Bluepad32 App) (e : Event)
    : option (@GamepadCallback App) :=
  if is_connect e then _onConnect bp else _onDisconnect bp.

(** The application state obtained by running the registered callbacks on
    the logged arguments, in the order of the log. *)
Definition replay {App : Type} (bp : @Bluepad32 App) (log : list Event)
    (app : App) : App :=
  fold_left
    (fun a e =>
       match callback_for bp e with
       | Some cb => snd (cb (event_slot e) (event_gamepad e) a)
       | None => a
       end) log app.

(** The application state obtained by calling [onConnect] for every logged
    connect and [onDisconnect] for every logged disconnect, on the logged
    arguments and in the order of the log. *)
Definition invoke {App : Type} (onConnect onDisconnect : @GamepadCallback App)
    (log : list Event) (app : App) : App :=
  fold_left
    (fun a e =>
       snd ((if is_connect e then onConnect else onDisconnect)
              (event_slot e) (event_gamepad e) a)) log app.

(** *** The pass in 32-bit arithmetic

    The same two loops with every [int] operation reduced to a 32-bit two's
    complement value, to be compared with the definitions above. *)

Definition wrap32 (z : Z) : Z := ((z + 2 ^ 31) mod 2 ^ 32 - 2 ^ 31)%Z.

Definition poll_body32 (platform : Platform) (i : nat)
    (st : list Gamepad * Z) : option (list Gamepad * Z) :=
  let '(gs, connectedGamepads) := st in
  match gs !! i with
  | None => None
  | Some g =>
      let gs' := <[i := refresh platform i g]> gs in
      match gs' !! i with
      | None => None
      | Some g' =>
          if negb (idx (_state g') =? -1)%Z
          then Some (gs', wrap32 (Z.lor connectedGamepads
                                    (wrap32 (Z.shiftl 1 (Z.of_nat i)))))
          else Some (gs', connectedGamepads)
      end
  end.

Definition notify_body32 {App : Type} (bp : @Bluepad32 App)
    (connectedGamepads : Z) (i : nat)
    (st : list Gamepad * App * list Event)
    : option (list Gamepad * App * list Event) :=
  let '(gs, app, log) := st in
  let bit := wrap32 (Z.shiftl 1 (Z.of_nat i)) in
  let current := wrap32 (Z.land connectedGamepads bit) in
  let prev := wrap32 (Z.land (_prevConnectedGamepads bp) bit) in
  if (current =? prev)%Z then Some st
  else
    match gs !! i with
    | None => None
    | Some g =>
        if negb (current =? 0)%Z then
          let g1 := set_connected g true in
          match _onConnect bp with
          | None => None
          | Some cb =>
              let '(g2, app') := cb i g1 app in
              Some (<[i := g2]> gs, app', log ++ [Connected i g1])
          end
        else
          match _onDisconnect bp with
          | None => None
          | Some cb =>
              let '(g1, app') := cb i g app in
              Some (<[i := set_connected g1 false]> gs, app',
                    log ++ [Disconnected i g])
          end
    end.

Definition update32 {App : Type} (n : nat) (platform : Platform)
    (bp : @Bluepad32 App) (app : App)
    : option (@Bluepad32 App * App * list Event) :=
  match for_slots (poll_body32 platform) n (_gamepads bp, 0%Z) with
  | None => None
  | Some (gs, connectedGamepads) =>
      if (connectedGamepads =? _prevConnectedGamepads bp)%Z then
        Some ({| _prevConnectedGamepads := _prevConnectedGamepads bp;
                 _gamepads := gs;
                 _onConnect := _onConnect bp;
                 _onDisconnect := _onDisconnect bp |}, app, [])
      else
        match for_slots (notify_body32 bp connectedGamepads) n
                        (gs, app, []) with
        | None => None
        | Some (gs', app', log) =>
            Some ({| _prevConnectedGamepads := connectedGamepads;
                     _gamepads := gs';
                     _onConnect := _onConnect bp;
                     _onDisconnect := _onDisconnect bp |}, app', log)
        end
  end.

(** A log for one slot in which connects and disconnects take turns,
    starting from a slot that is live or not. *)
Fixpoint alternates (live : bool) (l : list Event) : bool :=
  match l with
  | [] => true
  | e :: l' => Bool.eqb (is_connect e) (negb live) && alternates (negb live) l'
  end.

(** The slots below [n] whose bit differs between two bitmasks. *)
Definition changed_slots (prev cur : Z) (n : nat) : list nat :=
  List.filter
    (fun i => xorb (Z.testbit cur (Z.of_nat i)) (Z.testbit prev (Z.of_nat i)))
    (seq 0 n).

(** The live flag of every slot agrees with the stored bitmask. *)
Definition flags_track_mask {App : Type} (n : nat) (bp : @Bluepad32 App)
    : Prop :=
  forall i g,
    i < n -> _gamepads bp !! i = Some g ->
    _connected g = Z.testbit (_prevConnectedGamepads bp) (Z.of_nat i).

(** A callback, if registered, returns its pointee in relation [Keep] with
    what it received. *)
Definition respects {App : Type} (Keep : Gamepad -> Gamepad -> Prop)
    (o : option (@GamepadCallback App)) : Prop :=
  forall cb, o = Some cb -> forall i g a, Keep g (fst (cb i g a)).

Definition any_gamepad (g g' : Gamepad) : Prop := True.

Definition same_flag (g g' : Gamepad) : Prop := _connected g' = _connected g.

Definition same_state (g g' : Gamepad) : Prop := _state g' = _state g.

(** What the second loop leaves in slot [i], up to what the connect callback
    ([KeepC]) and the disconnect callback ([KeepD]) keep of their pointee:
    the refreshed entry for an unchanged slot, what the connect callback
    returns for the entry marked live, and what the disconnect callback
    returns, then marked not live. *)
Definition slot_kept (KeepC KeepD : Gamepad -> Gamepad -> Prop)
    (prev connected : Z) (gs1 gs' : list Gamepad) (i : nat) : Prop :=
  forall g1,
    gs1 !! i = Some g1 ->
    exists g,
      gs' !! i = Some g
      /\ if Bool.eqb (Z.testbit connected (Z.of_nat i))
                     (Z.testbit prev (Z.of_nat i))
         then g = g1
         else if Z.testbit connected (Z.of_nat i)
              then KeepC (set_connected g1 true) g
              else exists gm, KeepD g1 gm /\ g = set_connected gm false.

(** Invariant of the second loop that follows the table, the application
    state and the callbacks used. *)
Definition notify_effect_inv {App : Type}
    (KeepC KeepD : Gamepad -> Gamepad -> Prop) (bp : @Bluepad32 App)
    (connected : Z) (gs1 : list Gamepad) (app0 : App) (k : nat)
    (st : list Gamepad * App * list Event) : Prop :=
  let '(gs', app', log) := st in
  length gs' = length gs1
  /\ (forall j, k <= j -> gs' !! j = gs1 !! j)
  /\ (forall i, i < k ->
        slot_kept KeepC KeepD (_prevConnectedGamepads bp) connected gs1 gs'
          i)
  /\ app' = replay bp log app0
  /\ (forall e, In e log -> is_Some (callback_for bp e)).

(** Three states of the platform in a row: controllers in slots 0 and 2,
    then in slot 2 only, then none. *)
Definition three_polls : list Platform :=
  [platform_with [0; 2]%nat; platform_with [2]%nat; platform_with []].

(** A freshly constructed object, and two registrations in a row on it: the
    first one has the two counters swapped, the second one is that of
    [bp_ready]. *)
Definition bp_fresh (n : nat) : @Bluepad32 (nat * nat) :=
  Bluepad32_new n default_gamepad.

Definition bp_registered_twice (n : nat) : @Bluepad32 (nat * nat) :=
  setup_all (bp_fresh n)
    ([(count_disconnect, count_connect)]
     ++ [(count_connect, count_disconnect)]).

(** Callbacks that register the slot they were called for. *)
Definition note_slot : @GamepadCallback (list nat) :=
  fun i g app => (g, app ++ [i]).

(** A connect callback that tampers with the pointee's state but not its
    live flag. *)
Definition scrub_state : @GamepadCallback (list nat) :=
  fun i g app => (set_state g empty_slot, app ++ [i]).

Definition bp_noting (n : nat) : @Bluepad32 (list nat) :=
  setup (Bluepad32_new n default_gamepad) note_slot note_slot.

Definition bp_scrubbing (n : nat) : @Bluepad32 (list nat) :=
  setup (Bluepad32_new n default_gamepad) scrub_state note_slot.

(** ** The numeric policy of the variant parser and its properties *)

Section Parser.

(** The fixed signed range of the sticks and the fixed unsigned range of
    the triggers; the spec leaves their bounds open. *)
Variables AXIS_MIN AXIS_MAX TRIGGER_MAX : Z.

(** The usages the variant recognizes; the spec does not list them. *)
Variable usage_table : Z -> Z -> option usage_target.

Definition canonical_min (f : analog_field) : Z :=
  match f with Brake | Throttle => 0 | _ => AXIS_MIN end.

Definition canonical_max (f : analog_field) : Z :=
  match f with Brake | Throttle => TRIGGER_MAX | _ => AXIS_MAX end.

(** Sticks centered, triggers at rest. *)
Definition neutral (f : analog_field) : Z := 0.

(** Modelled from the spec: the numeric policy of [parse_usage] in section
    4.1, missing with its body.  A zero-width logical range yields the
    neutral value; otherwise the value is clamped to the logical range and
    scaled into the canonical range, the exact quotient being rounded
    toward zero. *)
Definition normalize (globals : hid_globals_t) (f : analog_field)
    (value : Z) : option Z :=
  let width := (logical_max globals - logical_min globals)%Z in
  if (width =? 0)%Z then Some (neutral f)
  else
    let v := clamp (logical_min globals) (logical_max globals) value in
    checked_quot (canonical_min f * width
                  + (v - logical_min globals)
                    * (canonical_max f - canonical_min f)) width.

(** Modelled from the spec: the body of [parse_usage], which is missing.
    The declaration returns [void], so there is no error to report: the
    result is the new state, and [None] stands for undefined behaviour (a
    division by zero) only. *)
Definition uni_hid_parser_android_parse_usage (d : uni_gamepad_t)
    (globals : hid_globals_t) (usage_page usage : Z) (value : Z)
    : option uni_gamepad_t :=
  match usage_table usage_page usage with
  | None => Some d
  | Some (Analog f) =>
      match normalize globals f value with
      | Some v => Some (store_field f v d)
      | None => None
      end
  | Some (Other h) => Some (h globals value d)
  end.

(** The value [parse_usage] leaves in field [f]. *)
Definition parsed_field (f : analog_field) (d : uni_gamepad_t)
    (globals : hid_globals_t) (usage_page usage : Z) (value : Z)
    : option Z :=
  match uni_hid_parser_android_parse_usage d globals usage_page usage
          value with
  | Some d' => Some (read_field f d')
  | None => None
  end.

Lemma read_store_field f v d : read_field f (store_field f v d) = v.
Proof. destruct f; reflexivity. Qed.

Lemma clamp_inside lo hi v : (lo <= v <= hi)%Z -> clamp lo hi v = v.
Proof. unfold clamp. lia. Qed.

Lemma clamp_below lo hi v : (lo <= hi)%Z -> (v < lo)%Z -> clamp lo hi v = lo.
Proof. unfold clamp. lia. Qed.

Lemma clamp_above lo hi v : (lo <= hi)%Z -> (hi < v)%Z -> clamp lo hi v = hi.
Proof. unfold clamp. lia. Qed.

Lemma checked_quot_defined a b :
  b <> 0%Z -> checked_quot a b = Some (Z.quot a b).
Proof.
  intros Hb. unfold checked_quot. now rewrite (proj2 (Z.eqb_neq b 0) Hb).
Qed.

Local Open Scope Z_scope.

(** The division of [normalize] is never reached with a zero divisor. *)
Lemma normalize_total globals f value :
  exists r, normalize globals f value = Some r.
Proof.
  unfold normalize.
  destruct (Z.eqb_spec (logical_max globals - logical_min globals) 0)
    as [Hz|Hnz]; [eauto|].
  rewrite checked_quot_defined by exact Hnz. eauto.
Qed.

Lemma normalize_scaled globals f value :
  logical_min globals < logical_max globals ->
  normalize globals f value
  = Some (Z.quot
            (canonical_min f * (logical_max globals - logical_min globals)
             + (clamp (logical_min globals) (logical_max globals) value
                - logical_min globals) * (canonical_max f - canonical_min f))
            (logical_max globals - logical_min globals)).
Proof.
  intros Hlt. unfold normalize.
  rewrite (proj2 (Z.eqb_neq _ 0)) by lia.
  apply checked_quot_defined. lia.
Qed.

Lemma canonical_range_ordered f :
  AXIS_MIN <= AXIS_MAX -> 0 <= TRIGGER_MAX ->
  canonical_min f <= canonical_max f.
Proof. intros Ha Ht. destruct f; cbn; assumption. Qed.

Lemma scale_low (lo hi w : Z) :
  w <> 0 -> Z.quot (lo * w + 0 * (hi - lo)) w = lo.
Proof. intros Hw. rewrite Z.mul_0_l, Z.add_0_r. now apply Z.quot_mul. Qed.

Lemma scale_high (lo hi w : Z) :
  w <> 0 -> Z.quot (lo * w + w * (hi - lo)) w = hi.
Proof.
  intros Hw. replace (lo * w + w * (hi - lo)) with (hi * w) by ring.
  now apply Z.quot_mul.
Qed.

Lemma scale_monotone (lo hi w x y : Z) :
  0 < w -> lo <= hi -> x <= y ->
  Z.quot (lo * w + x * (hi - lo)) w <= Z.quot (lo * w + y * (hi - lo)) w.
Proof.
  intros Hw Hr Hxy. apply Z.quot_le_mono; [exact Hw|].
  apply Z.add_le_mono_l, Z.mul_le_mono_nonneg_r; lia.
Qed.

Lemma parsed_analog d globals usage_page usage f value :
  usage_table usage_page usage = Some (Analog f) ->
  parsed_field f d globals usage_page usage value
  = normalize globals f value.
Proof.
  intros Htab. unfold parsed_field, uni_hid_parser_android_parse_usage.
  rewrite Htab.
  destruct (normalize globals f value); [|reflexivity].
  now rewrite read_store_field.
Qed.

(** C6.  For a usage bound to an analog field and a logical range of
    positive width, the value [parse_usage] stores is non-decreasing in the
    input over the logical range, is the canonical minimum at [logical_min]
    and the canonical maximum at [logical_max], is the nearest canonical
    extreme for inputs outside the logical range, and never leaves the
    canonical range. *)
Theorem normalization_monotone_exact_clamped
    d globals usage_page usage f :
  AXIS_MIN <= AXIS_MAX -> 0 <= TRIGGER_MAX ->
  logical_min globals < logical_max globals ->
  usage_table usage_page usage = Some (Analog f) ->
  (forall v1 v2,
     logical_min globals <= v1 -> v1 <= v2 -> v2 <= logical_max globals ->
     exists r1 r2,
       parsed_field f d globals usage_page usage v1 = Some r1
       /\ parsed_field f d globals usage_page usage v2 = Some r2
       /\ r1 <= r2)
  /\ parsed_field f d globals usage_page usage (logical_min globals)
     = Some (canonical_min f)
  /\ parsed_field f d globals usage_page usage (logical_max globals)
     = Some (canonical_max f)
  /\ (forall v, v < logical_min globals ->
        parsed_field f d globals usage_page usage v = Some (canonical_min f))
  /\ (forall v, logical_max globals < v ->
        parsed_field f d globals usage_page usage v = Some (canonical_max f))
  /\ (forall v, exists r,
        parsed_field f d globals usage_page usage v = Some r
        /\ canonical_min f <= r <= canonical_max f).
Proof.
  intros Ha Ht Hw Htab.
  pose proof (canonical_range_ordered f Ha Ht) as Hrange.
  set (lo := logical_min globals) in *.
  set (hi := logical_max globals) in *.
  set (sc := fun x =>
               Z.quot (canonical_min f * (hi - lo)
                       + (x - lo) * (canonical_max f - canonical_min f))
                      (hi - lo)).
  assert (Hval : forall v,
            parsed_field f d globals usage_page usage v
            = Some (sc (clamp lo hi v))).
  { intros v. rewrite (parsed_analog _ _ _ _ _ _ Htab).
    now rewrite normalize_scaled by exact Hw. }
  assert (Hsc_lo : sc lo = canonical_min f).
  { unfold sc. rewrite Z.sub_diag. apply scale_low. lia. }
  assert (Hsc_hi : sc hi = canonical_max f).
  { unfold sc. apply scale_high. lia. }
  assert (Hsc_mono : forall x y, x <= y -> sc x <= sc y).
  { intros x y Hxy. unfold sc. apply scale_monotone; lia. }
  split.
  { intros v1 v2 H1 H12 H2. exists (sc v1), (sc v2).
    rewrite !Hval, !clamp_inside by lia.
    split; [reflexivity|]. split; [reflexivity|]. now apply Hsc_mono. }
  split; [rewrite Hval, clamp_inside by lia; now f_equal|].
  split; [rewrite Hval, clamp_inside by lia; now f_equal|].
  split; [intros v Hv; rewrite Hval, clamp_below by lia; now f_equal|].
  split; [intros v Hv; rewrite Hval, clamp_above by lia; now f_equal|].
  intros v. exists (sc (clamp lo hi v)). split; [apply Hval|].
  rewrite <- Hsc_lo, <- Hsc_hi.
  split; apply Hsc_mono; unfold clamp; lia.
Qed.

(** C7.  A usage pair that the variant does not recognize leaves the whole
    state as it is, for every value and scaling context, and the call
    returns normally. *)
Theorem unrecognized_usage_ignored d globals usage_page usage value :
  usage_table usage_page usage = None ->
  uni_hid_parser_android_parse_usage d globals usage_page usage value
  = Some d.
Proof.
  intros Htab. unfold uni_hid_parser_android_parse_usage. now rewrite Htab.
Qed.

(** C8.  With a zero-width logical range the normalization is defined (its
    division is not reached) and yields the neutral value of the field,
    which is what [parse_usage] stores, for every input value. *)
Theorem zero_width_range_is_neutral d globals usage_page usage f value :
  logical_min globals = logical_max globals ->
  usage_table usage_page usage = Some (Analog f) ->
  normalize globals f value = Some (neutral f)
  /\ uni_hid_parser_android_parse_usage d globals usage_page usage value
     = Some (store_field f (neutral f) d)
  /\ parsed_field f d globals usage_page usage value = Some (neutral f).
Proof.
  intros Hflat Htab.
  assert (Hn : normalize globals f value = Some (neutral f)).
  { unfold normalize. now rewrite Hflat, Z.sub_diag. }
  split; [exact Hn|]. split.
  - unfold uni_hid_parser_android_parse_usage. now rewrite Htab, Hn.
  - now rewrite (parsed_analog _ _ _ _ _ _ Htab).
Qed.

(** [parse_usage] returns for every input. *)
Lemma parse_usage_total d globals usage_page usage value :
  exists d',
    uni_hid_parser_android_parse_usage d globals usage_page usage value
    = Some d'.
Proof.
  unfold uni_hid_parser_android_parse_usage.
  destruct (usage_table usage_page usage) as [[f|h]|]; eauto.
  destruct (normalize_total globals f value) as [r ->]. eauto.
Qed.

End Parser.

(** ** Bit tests of the second loop *)

Lemma land_bit (x : Z) (i : nat) :
  Z.land x (Z.shiftl 1 (Z.of_nat i))
  = if Z.testbit x (Z.of_nat i) then (2 ^ Z.of_nat i)%Z else 0%Z.
Proof.
  rewrite Z.shiftl_1_l.
  apply Z.bits_inj'; intros n Hn.
  rewrite Z.land_spec, Z.pow2_bits_eqb by lia.
  destruct (Z.eqb_spec (Z.of_nat i) n) as [->|Hne].
  - destruct (Z.testbit x n) eqn:E; cbn.
    + now rewrite Z.pow2_bits_eqb, Z.eqb_refl by lia.
    + now rewrite Z.bits_0.
  - rewrite andb_false_r.
    destruct (Z.testbit x (Z.of_nat i)).
    + rewrite Z.pow2_bits_eqb by lia. symmetry. now apply Z.eqb_neq.
    + now rewrite Z.bits_0.
Qed.

Lemma pow2_nonzero (i : nat) : (2 ^ Z.of_nat i)%Z <> 0%Z.
Proof. apply Z.pow_nonzero; lia. Qed.

Lemma bit_unchanged_test (c p : Z) (i : nat) :
  (Z.land c (Z.shiftl 1 (Z.of_nat i)) =? Z.land p (Z.shiftl 1 (Z.of_nat i)))%Z
  = Bool.eqb (Z.testbit c (Z.of_nat i)) (Z.testbit p (Z.of_nat i)).
Proof.
  rewrite !land_bit. pose proof (pow2_nonzero i) as Hnz.
  destruct (Z.testbit c (Z.of_nat i)), (Z.testbit p (Z.of_nat i));
    cbn [Bool.eqb]; try apply Z.eqb_refl; apply Z.eqb_neq; lia.
Qed.

Lemma bit_current_test (c : Z) (i : nat) :
  negb (Z.land c (Z.shiftl 1 (Z.of_nat i)) =? 0)%Z
  = Z.testbit c (Z.of_nat i).
Proof.
  rewrite land_bit. pose proof (pow2_nonzero i) as Hnz.
  destruct (Z.testbit c (Z.of_nat i)).
  - apply negb_true_iff, Z.eqb_neq; lia.
  - reflexivity.
Qed.

(** ** Loop rules for [for_slots] *)

Section LoopRules.

Context {St : Type}.
Variable body : nat -> St -> option St.
Variable Inv : nat -> St -> Prop.

(** Partial correctness: an invariant kept by every successful iteration
    holds of every result. *)
Lemma for_slots_inv (n : nat) (s s' : St) :
  Inv 0 s ->
  (forall k t t', k < n -> Inv k t -> body k t = Some t' -> Inv (S k) t') ->
  for_slots body n s = Some s' ->
  Inv n s'.
Proof.
  intros H0 Hstep. revert s'.
  induction n as [|k IH]; intros s' Hrun; cbn in Hrun.
  - now inversion Hrun; subst.
  - destruct (for_slots body k s) as [t|] eqn:Hk; [|discriminate].
    apply (Hstep k t s'); [lia | | exact Hrun].
    apply IH; [|reflexivity].
    intros j u u' Hj. apply Hstep. lia.
Qed.

(** Total correctness: if every iteration succeeds from a state of the
    invariant, the loop returns. *)
Lemma for_slots_total (n : nat) (s : St) :
  Inv 0 s ->
  (forall k t, k < n -> Inv k t ->
               exists t', body k t = Some t' /\ Inv (S k) t') ->
  exists s', for_slots body n s = Some s' /\ Inv n s'.
Proof.
  intros H0 Hstep.
  induction n as [|k IH]; cbn.
  - eauto.
  - destruct IH as (t & Hk & Ht).
    { intros j u Hj. apply Hstep. lia. }
    rewrite Hk. apply Hstep; [lia | exact Ht].
Qed.

End LoopRules.

(** ** The first loop *)

Lemma polled_upto_0 platform gs : polled_upto platform 0 gs = gs.
Proof.
  apply list_eq; intros i. unfold polled_upto.
  rewrite list_lookup_imap. now destruct (gs !! i).
Qed.

Lemma polled_upto_lookup platform n gs i :
  polled_upto platform n gs !! i
  = if (i <? n)%nat then refresh platform i <$> gs !! i else gs !! i.
Proof.
  unfold polled_upto. rewrite list_lookup_imap.
  destruct (i <? n)%nat, (gs !! i); reflexivity.
Qed.

Lemma polled_upto_length platform n gs :
  length (polled_upto platform n gs) = length gs.
Proof. apply length_imap. Qed.

Lemma polled_upto_S platform k gs g :
  gs !! k = Some g ->
  <[k := refresh platform k g]> (polled_upto platform k gs)
  = polled_upto platform (S k) gs.
Proof.
  intros Hg. apply list_eq; intros i.
  rewrite list_lookup_insert, !polled_upto_lookup, polled_upto_length.
  pose proof (lookup_lt_Some _ _ _ Hg) as Hlt.
  destruct (decide (k = i)) as [<-|Hne].
  - rewrite decide_True by (split; [reflexivity | lia]).
    rewrite Hg. now rewrite (proj2 (Nat.ltb_lt k (S k))) by lia.
  - rewrite decide_False by tauto.
    destruct (Nat.ltb_spec i k), (Nat.ltb_spec i (S k)); try reflexivity; lia.
Qed.


Lemma lor_bit_range (c : Z) (k : nat) :
  (0 <= c < 2 ^ Z.of_nat k)%Z ->
  (0 <= Z.lor c (Z.shiftl 1 (Z.of_nat k)) < 2 ^ Z.of_nat (S k))%Z.
Proof.
  intros [Hc0 Hck]. rewrite Z.shiftl_1_l.
  assert (Hp : (0 < 2 ^ Z.of_nat k)%Z) by (apply Z.pow_pos_nonneg; lia).
  split.
  - apply Z.lor_nonneg. lia.
  - rewrite Nat2Z.inj_succ, Z.pow_succ_r by lia.
    assert (Hl : (0 <= Z.land c (2 ^ Z.of_nat k))%Z)
      by (apply Z.land_nonneg; lia).
    pose proof (Z.add_lor_land c (2 ^ Z.of_nat k)) as Hadd. lia.
Qed.

Lemma poll_body_step platform gs k t t' :
  poll_inv platform gs k t ->
  poll_body platform k t = Some t' ->
  poll_inv platform gs (S k) t'.
Proof.
  destruct t as [gk c]. intros (Hgs & _ & Hrange & Hbits) Hstep.
  cbn [fst snd] in *. subst gk. unfold poll_body in Hstep.
  rewrite polled_upto_lookup, Nat.ltb_irrefl in Hstep.
  destruct (gs !! k) as [g|] eqn:Hg; [|discriminate].
  rewrite (polled_upto_S _ _ _ _ Hg) in Hstep.
  rewrite polled_upto_lookup, (proj2 (Nat.ltb_lt k (S k))), Hg in Hstep by lia.
  cbn [fmap option_fmap option_map refresh set_state _state] in Hstep.
  assert (Hpres : presence platform gs k
                  = negb (idx (platform k (_state g)) =? -1)%Z)
    by (unfold presence; now rewrite Hg).
  destruct (negb (idx (platform k (_state g)) =? -1)%Z) eqn:Hidx;
    inversion Hstep; subst t'; clear Hstep;
    (split; [reflexivity|]);
    (split; [apply lookup_lt_Some in Hg; lia|]); cbn [fst snd].
  - split; [now apply lor_bit_range|].
    intros i. rewrite Z.lor_spec, Hbits, Z.shiftl_1_l, Z.pow2_bits_eqb by lia.
    destruct (Nat.eq_dec i k) as [->|Hne].
    + rewrite Z.eqb_refl, Hpres, Nat.ltb_irrefl.
      now rewrite (proj2 (Nat.ltb_lt k (S k))) by lia.
    + rewrite (proj2 (Z.eqb_neq (Z.of_nat k) (Z.of_nat i))) by lia.
      rewrite orb_false_r.
      destruct (Nat.ltb_spec i k), (Nat.ltb_spec i (S k)); try reflexivity; lia.
  - split.
    + rewrite Nat2Z.inj_succ, Z.pow_succ_r by lia. lia.
    + intros i. rewrite Hbits.
      destruct (Nat.eq_dec i k) as [->|Hne].
      * rewrite Hpres, Nat.ltb_irrefl.
        now rewrite (proj2 (Nat.ltb_lt k (S k))) by lia.
      * destruct (Nat.ltb_spec i k), (Nat.ltb_spec i (S k));
          try reflexivity; lia.
Qed.

Lemma poll_inv_0 platform gs : poll_inv platform gs 0 (gs, 0%Z).
Proof.
  split; [symmetry; apply polled_upto_0|]. split; [lia|].
  split; [cbn; lia|].
  intros i. cbn [snd]. now rewrite Z.bits_0.
Qed.

(** Whatever the first loop returns is the refreshed table and the presence
    bitmask. *)
Lemma poll_spec n platform gs gs1 c :
  poll n platform gs = Some (gs1, c) ->
  gs1 = polled_upto platform n gs
  /\ n <= length gs
  /\ (0 <= c < 2 ^ Z.of_nat n)%Z
  /\ forall i : nat,
       Z.testbit c (Z.of_nat i) = (i <? n)%nat && presence platform gs i.
Proof.
  intros Hrun.
  apply (for_slots_inv (poll_body platform) (poll_inv platform gs) n
           (gs, 0%Z) (gs1, c)); [apply poll_inv_0 | | exact Hrun].
  intros k t t' _. apply poll_body_step.
Qed.

(** The first loop returns when the table has a slot for every index. *)
Lemma poll_total n platform gs :
  n <= length gs ->
  exists c, poll n platform gs = Some (polled_upto platform n gs, c).
Proof.
  intros Hlen.
  destruct (for_slots_total (poll_body platform) (poll_inv platform gs) n
              (gs, 0%Z)) as ([gs1 c] & Hrun & Hinv).
  - apply poll_inv_0.
  - intros k [gk c] Hk Hinv.
    destruct (lookup_lt_is_Some_2 gs k) as [g Hg]; [lia|].
    assert (exists t', poll_body platform k (gk, c) = Some t') as [t' Ht'].
    { destruct Hinv as (Hgs & _). cbn [fst] in Hgs. subst gk.
      unfold poll_body.
      rewrite polled_upto_lookup, Nat.ltb_irrefl, Hg.
      rewrite (polled_upto_S _ _ _ _ Hg).
      rewrite polled_upto_lookup, (proj2 (Nat.ltb_lt k (S k))), Hg by lia.
      cbn [fmap option_fmap option_map].
      destruct (negb _); eauto. }
    exists t'. split; [exact Ht'|]. eapply poll_body_step; eauto.
  - exists c. unfold poll. rewrite Hrun.
    destruct Hinv as (Hgs & _). cbn [fst] in Hgs. now subst gs1.
Qed.

(** With at most 31 slots the bitmask is a non-negative 32-bit [int]. *)
Lemma poll_mask_int_range n platform gs gs1 c :
  n <= 31 ->
  poll n platform gs = Some (gs1, c) ->
  (0 <= c < 2 ^ 31)%Z.
Proof.
  intros Hn Hrun.
  destruct (poll_spec _ _ _ _ _ Hrun) as (_ & _ & [H0 Hlt] & _).
  split; [exact H0|].
  apply Z.lt_le_trans with (2 ^ Z.of_nat n)%Z; [exact Hlt|].
  apply Z.pow_le_mono_r; lia.
Qed.

(** ** The second loop *)

Lemma pass_log_S prev c gs k :
  pass_log prev c gs (S k)
  = pass_log prev c gs k
    ++ match slot_event prev c gs k with Some e => [e] | None => [] end.
Proof.
  unfold pass_log. rewrite seq_S, omap_app. cbn [Nat.add omap list_omap].
  now destruct (slot_event prev c gs k).
Qed.

Lemma slot_settled_insert prev c gs1 gs' i k g :
  i <> k ->
  slot_settled prev c gs1 gs' i ->
  slot_settled prev c gs1 (<[k := g]> gs') i.
Proof.
  intros Hne. unfold slot_settled.
  now rewrite list_lookup_insert_ne by congruence.
Qed.

Section SecondLoop.

Context {App : Type}.
Variable bp : @Bluepad32 App.
Variable connected : Z.
Variable gs1 : list Gamepad.

Let prev := _prevConnectedGamepads bp.

Lemma notify_body_step k t t' :
  notify_inv prev connected gs1 k t ->
  notify_body bp connected k t = Some t' ->
  notify_inv prev connected gs1 (S k) t'.
Proof.
  destruct t as [[gs' app] log]. intros (Hlog & Hlen & Hrest & Hdone) Hstep.
  unfold notify_body in Hstep.
  rewrite bit_unchanged_test, bit_current_test in Hstep.
  fold prev in Hstep.
  destruct (Bool.eqb (Z.testbit connected (Z.of_nat k))
                     (Z.testbit prev (Z.of_nat k))) eqn:Hsame.
  - inversion Hstep; subst t'; clear Hstep.
    repeat split.
    + rewrite pass_log_S. unfold slot_event. rewrite Hsame.
      now rewrite app_nil_r.
    + exact Hlen.
    + intros j Hj. apply Hrest. lia.
    + intros i Hi. destruct (Nat.eq_dec i k) as [->|Hne].
      * unfold slot_settled. rewrite Hsame. apply Hrest. lia.
      * apply Hdone. lia.
  - rewrite (Hrest k) in Hstep by lia.
    destruct (gs1 !! k) as [g|] eqn:Hg; [|discriminate].
    assert (Hk : k < length gs')
      by (rewrite Hlen; eapply lookup_lt_Some; eauto).
    assert (Hev : slot_event prev connected gs1 k
                  = Some (if Z.testbit connected (Z.of_nat k)
                          then Connected k (set_connected g true)
                          else Disconnected k g)).
    { unfold slot_event. rewrite Hsame, Hg.
      now destruct (Z.testbit connected (Z.of_nat k)). }
    destruct (Z.testbit connected (Z.of_nat k)) eqn:Hcur;
      cbn [negb] in Hstep.
    + destruct (_onConnect bp) as [cb|]; [|discriminate].
      destruct (cb k (set_connected g true) app) as [g2 app2].
      inversion Hstep; subst t'; clear Hstep.
      repeat split.
      * now rewrite pass_log_S, Hev, Hlog.
      * now rewrite length_insert.
      * intros j Hj. rewrite list_lookup_insert_ne by lia. apply Hrest. lia.
      * intros i Hi. destruct (Nat.eq_dec i k) as [->|Hne].
        -- unfold slot_settled. rewrite Hcur, Hsame.
           rewrite list_lookup_insert_eq by exact Hk. eauto.
        -- apply slot_settled_insert; [exact Hne|]. apply Hdone. lia.
    + destruct (_onDisconnect bp) as [cb|]; [|discriminate].
      destruct (cb k g app) as [g2 app2].
      inversion Hstep; subst t'; clear Hstep.
      repeat split.
      * now rewrite pass_log_S, Hev, Hlog.
      * now rewrite length_insert.
      * intros j Hj. rewrite list_lookup_insert_ne by lia. apply Hrest. lia.
      * intros i Hi. destruct (Nat.eq_dec i k) as [->|Hne].
        -- unfold slot_settled. rewrite Hcur, Hsame.
           rewrite list_lookup_insert_eq by exact Hk.
           eexists; split; reflexivity.
        -- apply slot_settled_insert; [exact Hne|]. apply Hdone. lia.
Qed.

Lemma notify_inv_0 (app : App) : notify_inv prev connected gs1 0 (gs1, app, []).
Proof. repeat split; intros; lia. Qed.

(** Whatever the second loop returns, its log is the list of owed
    notifications, slot by slot. *)
Lemma for_slots_notify_spec n (app : App) t :
  for_slots (notify_body bp connected) n (gs1, app, []) = Some t ->
  notify_inv prev connected gs1 n t.
Proof.
  intros Hrun.
  apply (for_slots_inv (notify_body bp connected)
           (notify_inv prev connected gs1) n (gs1, app, []) t);
    [apply notify_inv_0 | | exact Hrun].
  intros k u u' _. apply notify_body_step.
Qed.

(** The second loop returns when both callbacks are registered and the
    table has a slot for every index. *)
Lemma for_slots_notify_total n (app : App) :
  n <= length gs1 ->
  is_Some (_onConnect bp) -> is_Some (_onDisconnect bp) ->
  exists t, for_slots (notify_body bp connected) n (gs1, app, []) = Some t.
Proof.
  intros Hlen [cbc Hc] [cbd Hd].
  destruct (for_slots_total (notify_body bp connected)
              (notify_inv prev connected gs1) n (gs1, app, []))
    as (t & Hrun & _); [apply notify_inv_0 | | eauto].
  intros k [[gs' app'] log] Hk Hinv.
  assert (exists t', notify_body bp connected k (gs', app', log) = Some t')
    as [t' Ht'].
  { destruct Hinv as (_ & _ & Hrest & _).
    unfold notify_body. rewrite (Hrest k) by lia.
    destruct (lookup_lt_is_Some_2 gs1 k) as [g Hg]; [lia|].
    rewrite Hg, Hc, Hd.
    destruct (_ =? _)%Z; [eauto|].
    destruct (negb _).
    - destruct (cbc k (set_connected g true) app'); eauto.
    - destruct (cbd k g app'); eauto. }
  exists t'. split; [exact Ht'|]. eapply notify_body_step; eauto.
Qed.

End SecondLoop.

(** ** The log of owed notifications *)

Lemma slot_event_slot prev c gs i e :
  slot_event prev c gs i = Some e -> event_slot e = i.
Proof.
  unfold slot_event.
  destruct (Bool.eqb _ _); [discriminate|].
  destruct (gs !! i); [|discriminate].
  destruct (Z.testbit c (Z.of_nat i)); intros [= <-]; reflexivity.
Qed.

Lemma slot_event_same prev c gs i :
  Z.testbit c (Z.of_nat i) = Z.testbit prev (Z.of_nat i) ->
  slot_event prev c gs i = None.
Proof.
  intros H. unfold slot_event. now rewrite H, eqb_reflx.
Qed.

Lemma pass_log_In prev c gs n e :
  In e (pass_log prev c gs n) ->
  event_slot e < n /\ slot_event prev c gs (event_slot e) = Some e.
Proof.
  induction n as [|k IH].
  - intros [].
  - rewrite pass_log_S, in_app_iff. intros [Hin|Hin].
    + destruct (IH Hin). split; [lia | assumption].
    + destruct (slot_event prev c gs k) as [e'|] eqn:He; [|destruct Hin].
      destruct Hin as [<-|[]].
      rewrite (slot_event_slot _ _ _ _ _ He). split; [lia | exact He].
Qed.

Lemma events_of_pass_log prev c gs n i :
  events_of i (pass_log prev c gs n)
  = if (i <? n)%nat
    then match slot_event prev c gs i with Some e => [e] | None => [] end
    else [].
Proof.
  unfold events_of. induction n as [|k IH].
  - reflexivity.
  - rewrite pass_log_S, List.filter_app, IH.
    destruct (Nat.eq_dec i k) as [->|Hne].
    + rewrite Nat.ltb_irrefl, (proj2 (Nat.ltb_lt k (S k))) by lia.
      destruct (slot_event prev c gs k) as [e|] eqn:He; [|reflexivity].
      cbn [List.filter app].
      now rewrite (slot_event_slot _ _ _ _ _ He), Nat.eqb_refl.
    + assert (Hnil : List.filter (fun e => Nat.eqb (event_slot e) i)
                       match slot_event prev c gs k with
                       | Some e => [e] | None => [] end = []).
      { destruct (slot_event prev c gs k) as [e|] eqn:He; [|reflexivity].
        cbn [List.filter].
        rewrite (slot_event_slot _ _ _ _ _ He).
        now rewrite (proj2 (Nat.eqb_neq k i)) by congruence. }
      rewrite Hnil, app_nil_r.
      destruct (Nat.ltb_spec i k), (Nat.ltb_spec i (S k));
        try reflexivity; lia.
Qed.

Lemma pass_log_silent prev c gs n :
  (forall i, i < n ->
             Z.testbit c (Z.of_nat i) = Z.testbit prev (Z.of_nat i)) ->
  pass_log prev c gs n = [].
Proof.
  induction n as [|k IH]; intros Hsame; [reflexivity|].
  rewrite pass_log_S, IH by (intros; apply Hsame; lia).
  now rewrite slot_event_same by (apply Hsame; lia).
Qed.

(** Slots in a log of owed notifications strictly increase. *)
Lemma owed_slots_sorted (f : nat -> option Event) :
  (forall i e, f i = Some e -> event_slot e = i) ->
  forall n a,
    StronglySorted lt (map event_slot (omap f (seq a n)))
    /\ Forall (fun s => a <= s) (map event_slot (omap f (seq a n))).
Proof.
  intros Hslot. induction n as [|n IH]; intros a.
  - split; constructor.
  - destruct (IH (S a)) as [Hsorted Hlow].
    cbn [seq omap list_omap]. fold (omap f (seq (S a) n)).
    destruct (f a) as [e|] eqn:He.
    + cbn [map]. rewrite (Hslot _ _ He). split.
      * constructor; [exact Hsorted|].
        eapply Forall_impl; [exact Hlow|]. cbn. intros; lia.
      * constructor; [lia|].
        eapply Forall_impl; [exact Hlow|]. cbn. intros; lia.
    + split; [exact Hsorted|].
      eapply Forall_impl; [exact Hlow|]. cbn. intros; lia.
Qed.

Lemma pass_log_sorted prev c gs n :
  StronglySorted lt (map event_slot (pass_log prev c gs n)).
Proof.
  apply (owed_slots_sorted (slot_event prev c gs)).
  intros i e. apply slot_event_slot.
Qed.

(** In a strictly sorted list, a smaller element sits at a smaller index. *)
Lemma sorted_positions (l : list nat) :
  StronglySorted lt l ->
  forall p q a b, l !! p = Some a -> l !! q = Some b -> a < b -> p < q.
Proof.
  induction 1 as [|x l Hs IH Hall]; intros p q a b Hp Hq Hab.
  - discriminate.
  - destruct p as [|p], q as [|q]; cbn in Hp, Hq.
    + injection Hp as <-. injection Hq as <-. lia.
    + lia.
    + injection Hq as <-.
      rewrite Forall_forall in Hall.
      assert (x < a); [|lia].
      apply Hall. apply list_elem_of_lookup. eauto.
    + apply -> Nat.succ_lt_mono. eapply IH; eauto.
Qed.

(** ** One polling pass *)

Section Pass.

Context {App : Type}.
Variable ARDUINO_MAX_GAMEPADS : nat.

Local Abbreviation MAX := ARDUINO_MAX_GAMEPADS.
Local Abbreviation Bp := (@Bluepad32 App).

(** Every completed pass: its bitmask, its log and the table it leaves. *)
Lemma update_spec platform (bp : Bp) app bp' app' log :
  update MAX platform bp app = Some (bp', app', log) ->
  exists c,
    poll MAX platform (_gamepads bp)
    = Some (polled_upto platform MAX (_gamepads bp), c)
    /\ _prevConnectedGamepads bp' = c
    /\ log = pass_log (_prevConnectedGamepads bp) c
               (polled_upto platform MAX (_gamepads bp)) MAX
    /\ length (_gamepads bp') = length (_gamepads bp)
    /\ (forall i, i < MAX ->
          slot_settled (_prevConnectedGamepads bp) c
            (polled_upto platform MAX (_gamepads bp)) (_gamepads bp') i)
    /\ _onConnect bp' = _onConnect bp
    /\ _onDisconnect bp' = _onDisconnect bp.
Proof.
  unfold update. intros Hrun.
  destruct (poll MAX platform (_gamepads bp)) as [[gs1 c]|] eqn:Hpoll;
    [|discriminate].
  destruct (poll_spec _ _ _ _ _ Hpoll) as (-> & _ & _ & _).
  exists c. split; [reflexivity|].
  destruct (Z.eqb_spec c (_prevConnectedGamepads bp)) as [Heq|Hne].
  - inversion Hrun; subst; clear Hrun. cbn.
    repeat split.
    + now rewrite pass_log_silent.
    + apply polled_upto_length.
    + intros i _. unfold slot_settled. now rewrite eqb_reflx.
  - unfold notify in Hrun.
    destruct (for_slots _ _ _) as [[[gs' app2] log2]|] eqn:Hloop;
      [|discriminate].
    inversion Hrun; subst; clear Hrun. cbn.
    apply for_slots_notify_spec in Hloop.
    destruct Hloop as (Hlog & Hlen & _ & Hdone).
    repeat split; try assumption.
    now rewrite Hlen, polled_upto_length.
Qed.

(** A pass returns when the table is complete and both callbacks are
    registered. *)
Lemma update_total platform (bp : Bp) app :
  MAX <= length (_gamepads bp) ->
  is_Some (_onConnect bp) -> is_Some (_onDisconnect bp) ->
  exists bp' app' log, update MAX platform bp app = Some (bp', app', log).
Proof.
  intros Hlen Hc Hd. unfold update.
  destruct (poll_total MAX platform (_gamepads bp) Hlen) as [c ->].
  destruct (_ =? _)%Z; [eauto|].
  unfold notify.
  destruct (for_slots_notify_total bp c
              (polled_upto platform MAX (_gamepads bp)) MAX app)
    as ([[gs' app'] log] & ->); try assumption; [|eauto].
  now rewrite polled_upto_length.
Qed.

(** A pass in which no slot changed its presence bit runs no callback,
    registered or not. *)
Lemma for_slots_notify_silent (bp : Bp) c n st :
  (forall i, i < n ->
     Z.testbit c (Z.of_nat i)
     = Z.testbit (_prevConnectedGamepads bp) (Z.of_nat i)) ->
  for_slots (notify_body bp c) n st = Some st.
Proof.
  induction n as [|k IH]; intros Hsame; [reflexivity|].
  cbn [for_slots]. rewrite IH by (intros; apply Hsame; lia).
  destruct st as [[gs app] log]. unfold notify_body.
  rewrite bit_unchanged_test, (Hsame k), eqb_reflx by lia. reflexivity.
Qed.

(** The bit of slot [i] in the bitmask of a pass. *)
Lemma poll_bit platform gs gs1 c i g0 :
  poll MAX platform gs = Some (gs1, c) ->
  i < MAX -> gs !! i = Some g0 ->
  Z.testbit c (Z.of_nat i) = negb (idx (platform i (_state g0)) =? -1)%Z.
Proof.
  intros Hpoll Hi Hg.
  destruct (poll_spec _ _ _ _ _ Hpoll) as (_ & _ & _ & Hbits).
  rewrite Hbits, (proj2 (Nat.ltb_lt i MAX)) by exact Hi.
  unfold presence. now rewrite Hg.
Qed.

Lemma polled_slot platform gs i g0 :
  i < MAX -> gs !! i = Some g0 ->
  polled_upto platform MAX gs !! i = Some (refresh platform i g0).
Proof.
  intros Hi Hg.
  now rewrite polled_upto_lookup, (proj2 (Nat.ltb_lt i MAX)), Hg by exact Hi.
Qed.

End Pass.

(** ** Properties of the Connection Lifecycle Monitor *)

Section PassProperties.

Context {App : Type}.
Variable ARDUINO_MAX_GAMEPADS : nat.

Local Abbreviation MAX := ARDUINO_MAX_GAMEPADS.
Local Abbreviation Bp := (@Bluepad32 App).

(** C1 (as the code has it).  When slot [i] goes from Empty to Connected in a
    pass (previous bit 0, fetched snapshot with [idx <> -1]), the pass
    returns and invokes exactly one callback for slot [i]: the connect
    callback, on an entry that is already marked live and whose state is the
    snapshot fetched from the platform in this very pass.  No reset to the
    idle state takes place. *)
Theorem connect_sees_live_fetched_snapshot
    platform (bp : Bp) app i g0 :
  length (_gamepads bp) = MAX ->
  is_Some (_onConnect bp) -> is_Some (_onDisconnect bp) ->
  i < MAX ->
  _gamepads bp !! i = Some g0 ->
  Z.testbit (_prevConnectedGamepads bp) (Z.of_nat i) = false ->
  idx (platform i (_state g0)) <> (-1)%Z ->
  exists bp' app' log,
    update MAX platform bp app = Some (bp', app', log)
    /\ events_of i log
       = [Connected i {| _connected := true;
                         _state := platform i (_state g0) |}].
Proof.
  intros Hlen Hc Hd Hi Hg Hprev Hidx.
  destruct (update_total MAX platform bp app) as (bp' & app' & log & Hrun);
    [lia | assumption | assumption |].
  exists bp', app', log. split; [exact Hrun|].
  destruct (update_spec _ _ _ _ _ _ _ Hrun) as (c & Hpoll & _ & -> & _).
  rewrite events_of_pass_log, (proj2 (Nat.ltb_lt i MAX)) by exact Hi.
  unfold slot_event.
  rewrite (poll_bit _ _ _ _ _ _ _ Hpoll Hi Hg), Hprev.
  rewrite (proj2 (Z.eqb_neq _ _) Hidx). cbn [negb Bool.eqb].
  now rewrite (polled_slot _ _ _ _ _ Hi Hg).
Qed.


(** C3.  A pass sees the net difference of the two bitmasks only: when the
    presence bit read for every slot equals the slot's previous bit, whatever
    happened to the slot between the two passes, the pass returns without
    invoking any callback (empty log, application state untouched); the
    table holds the refreshed entries. *)
Theorem unchanged_presence_is_silent platform (bp : Bp) app :
  length (_gamepads bp) = MAX ->
  (forall i, i < MAX ->
     presence platform (_gamepads bp) i
     = Z.testbit (_prevConnectedGamepads bp) (Z.of_nat i)) ->
  exists bp',
    update MAX platform bp app = Some (bp', app, [])
    /\ _gamepads bp' = polled_upto platform MAX (_gamepads bp).
Proof.
  intros Hlen Hsame. unfold update.
  destruct (poll_total MAX platform (_gamepads bp)) as [c Hpoll]; [lia|].
  rewrite Hpoll.
  destruct (_ =? _)%Z; [eexists; split; reflexivity|].
  unfold notify. rewrite for_slots_notify_silent.
  - eexists; split; reflexivity.
  - intros i Hi. rewrite <- (Hsame i Hi).
    destruct (poll_spec _ _ _ _ _ Hpoll) as (_ & _ & _ & Hbits).
    now rewrite Hbits, (proj2 (Nat.ltb_lt i MAX)) by exact Hi.
Qed.

(** C4.  No completed pass invokes both the connect and the disconnect
    callback for one slot. *)
Theorem never_connect_and_disconnect
    platform (bp : Bp) app bp' app' log i g g' :
  update MAX platform bp app = Some (bp', app', log) ->
  ~ (In (Connected i g) log /\ In (Disconnected i g') log).
Proof.
  intros Hrun [Hcon Hdis].
  destruct (update_spec _ _ _ _ _ _ _ Hrun) as (c & _ & _ & -> & _).
  apply pass_log_In in Hcon, Hdis. cbn [event_slot] in Hcon, Hdis.
  destruct Hcon as [_ Hcon], Hdis as [_ Hdis]. congruence.
Qed.

(** C5.  In the log of a completed pass the slot indices strictly increase;
    hence, of two notifications, the one for the smaller slot index comes
    first. *)
Theorem notifications_in_slot_order
    platform (bp : Bp) app bp' app' log :
  update MAX platform bp app = Some (bp', app', log) ->
  StronglySorted lt (map event_slot log)
  /\ forall p q ei ej,
       log !! p = Some ei -> log !! q = Some ej ->
       event_slot ei < event_slot ej -> p < q.
Proof.
  intros Hrun.
  destruct (update_spec _ _ _ _ _ _ _ Hrun) as (c & _ & _ & -> & _).
  pose proof (pass_log_sorted (_prevConnectedGamepads bp) c
                (polled_upto platform MAX (_gamepads bp)) MAX) as Hsorted.
  split; [exact Hsorted|].
  intros p q ei ej Hp Hq Hlt.
  apply (sorted_positions _ Hsorted p q (event_slot ei) (event_slot ej));
    [| | exact Hlt]; rewrite list_lookup_fmap.
  - now rewrite Hp.
  - now rewrite Hq.
Qed.

(** C10.  After every completed pass, early return or not, bit [i] of the
    stored bitmask is set exactly when the snapshot fetched into slot [i]
    during the pass has an [idx] other than [-1]. *)
Theorem prev_mask_tracks_snapshot
    platform (bp : Bp) app bp' app' log i :
  update MAX platform bp app = Some (bp', app', log) ->
  i < MAX ->
  exists g0,
    _gamepads bp !! i = Some g0
    /\ (Z.testbit (_prevConnectedGamepads bp') (Z.of_nat i) = true
        <-> idx (platform i (_state g0)) <> (-1)%Z).
Proof.
  intros Hrun Hi.
  destruct (update_spec _ _ _ _ _ _ _ Hrun) as (c & Hpoll & -> & _).
  destruct (poll_spec _ _ _ _ _ Hpoll) as (_ & Hlen & _ & _).
  destruct (lookup_lt_is_Some_2 (_gamepads bp) i) as [g0 Hg]; [lia|].
  exists g0. split; [exact Hg|].
  rewrite (poll_bit _ _ _ _ _ _ _ Hpoll Hi Hg).
  rewrite negb_true_iff. apply Z.eqb_neq.
Qed.

End PassProperties.

(** ** The lifecycle properties on a table of four slots *)

Lemma connect_sees_live_fetched_snapshot_witness :
  exists bp' app' log,
    update 4 (platform_with [0; 2]%nat) (bp_ready 4) (0, 0)%nat
    = Some (bp', app', log)
    /\ events_of 2 log
       = [Connected 2
            {| _connected := true;
               _state := platform_with [0; 2]%nat 2
                           (_state default_gamepad) |}].
Proof.
  apply (connect_sees_live_fetched_snapshot 4 (platform_with [0; 2]%nat)
           (bp_ready 4) (0, 0)%nat 2 default_gamepad).
  - reflexivity.
  - eexists; reflexivity.
  - eexists; reflexivity.
  - lia.
  - reflexivity.
  - reflexivity.
  - vm_compute. discriminate.
Defined.

(** A controller that connects with a button held down is announced with
    that button pressed: the state the connect callback sees is not the idle
    state of [init_report]. *)
Lemma connect_state_not_reset_to_idle :
  exists bp' app' g,
    update 1 (platform_with [0]%nat) (bp_ready 1) (0, 0)%nat
    = Some (bp', app', [Connected 0 g])
    /\ Z.testbit (_prevConnectedGamepads (bp_ready 1)) 0 = false
    /\ presence (platform_with [0]%nat) (_gamepads (bp_ready 1)) 0 = true
    /\ _connected g = true
    /\ buttons (gamepad (_state g)) = 1%Z
    /\ ~ is_idle g.
Proof.
  eexists _, _, _. split; [reflexivity|].
  repeat split. intros Hidle. discriminate Hidle.
Qed.


Lemma unchanged_presence_is_silent_witness :
  exists bp',
    update 4 (platform_with [0; 2]%nat) bp_two_live (0, 0)%nat
    = Some (bp', (0, 0)%nat, [])
    /\ _gamepads bp'
       = polled_upto (platform_with [0; 2]%nat) 4 (_gamepads bp_two_live).
Proof.
  apply (unchanged_presence_is_silent 4 (platform_with [0; 2]%nat)
           bp_two_live (0, 0)%nat).
  - reflexivity.
  - intros i Hi.
    destruct i as [|[|[|[|i]]]]; [reflexivity | reflexivity | reflexivity
                                 | reflexivity | lia].
Defined.

Lemma never_connect_and_disconnect_witness :
  ~ (In (Connected 0 (live_gamepad 0)) two_live_log
     /\ In (Disconnected 0 (live_gamepad 0)) two_live_log).
Proof.
  apply (never_connect_and_disconnect 4 (platform_with [0; 2]%nat)
           (bp_ready 4) (0, 0)%nat bp_two_live (2, 0)%nat two_live_log).
  reflexivity.
Defined.

Lemma notifications_in_slot_order_witness :
  StronglySorted lt (map event_slot two_live_log)
  /\ forall p q ei ej,
       two_live_log !! p = Some ei -> two_live_log !! q = Some ej ->
       event_slot ei < event_slot ej -> p < q.
Proof.
  apply (notifications_in_slot_order 4 (platform_with [0; 2]%nat)
           (bp_ready 4) (0, 0)%nat bp_two_live (2, 0)%nat two_live_log).
  reflexivity.
Defined.

Lemma prev_mask_tracks_snapshot_witness :
  exists g0,
    _gamepads (bp_ready 4) !! 2%nat = Some g0
    /\ (Z.testbit (_prevConnectedGamepads bp_two_live) (Z.of_nat 2) = true
        <-> idx (platform_with [0; 2]%nat 2 (_state g0)) <> (-1)%Z).
Proof.
  apply (prev_mask_tracks_snapshot 4 (platform_with [0; 2]%nat)
           (bp_ready 4) (0, 0)%nat bp_two_live (2, 0)%nat two_live_log 2).
  - reflexivity.
  - lia.
Defined.

(** ** The parser properties on the sample usage table *)

Lemma normalization_monotone_exact_clamped_witness :
  (forall v1 v2 : Z,
     (logical_min byte_range <= v1)%Z -> (v1 <= v2)%Z ->
     (v2 <= logical_max byte_range)%Z ->
     exists r1 r2,
       parsed_field (-512) 511 1023 sample_table AxisX idle_gamepad
         byte_range 1 48 v1 = Some r1
       /\ parsed_field (-512) 511 1023 sample_table AxisX idle_gamepad
            byte_range 1 48 v2 = Some r2
       /\ (r1 <= r2)%Z)
  /\ parsed_field (-512) 511 1023 sample_table AxisX idle_gamepad
       byte_range 1 48 (logical_min byte_range)
     = Some (canonical_min (-512) AxisX)
  /\ parsed_field (-512) 511 1023 sample_table AxisX idle_gamepad
       byte_range 1 48 (logical_max byte_range)
     = Some (canonical_max 511 1023 AxisX)
  /\ (forall v : Z, (v < logical_min byte_range)%Z ->
        parsed_field (-512) 511 1023 sample_table AxisX idle_gamepad
          byte_range 1 48 v = Some (canonical_min (-512) AxisX))
  /\ (forall v : Z, (logical_max byte_range < v)%Z ->
        parsed_field (-512) 511 1023 sample_table AxisX idle_gamepad
          byte_range 1 48 v = Some (canonical_max 511 1023 AxisX))
  /\ (forall v : Z, exists r,
        parsed_field (-512) 511 1023 sample_table AxisX idle_gamepad
          byte_range 1 48 v = Some r
        /\ (canonical_min (-512) AxisX <= r <= canonical_max 511 1023 AxisX)%Z).
Proof.
  apply (normalization_monotone_exact_clamped (-512) 511 1023 sample_table
           idle_gamepad byte_range 1 48 AxisX).
  - lia.
  - lia.
  - cbn. lia.
  - reflexivity.
Defined.

Lemma unrecognized_usage_ignored_witness :
  uni_hid_parser_android_parse_usage (-512) 511 1023 sample_table
    pressed_gamepad byte_range 12 1 77
  = Some pressed_gamepad.
Proof.
  apply (unrecognized_usage_ignored (-512) 511 1023 sample_table
           pressed_gamepad byte_range 12 1 77).
  reflexivity.
Defined.

Lemma zero_width_range_is_neutral_witness :
  normalize (-512) 511 1023 flat_range Brake 7 = Some (neutral Brake)
  /\ uni_hid_parser_android_parse_usage (-512) 511 1023 sample_table
       pressed_gamepad flat_range 2 197 7
     = Some (store_field Brake (neutral Brake) pressed_gamepad)
  /\ parsed_field (-512) 511 1023 sample_table Brake pressed_gamepad
       flat_range 2 197 7
     = Some (neutral Brake).
Proof.
  apply (zero_width_range_is_neutral (-512) 511 1023 sample_table
           pressed_gamepad flat_range 2 197 Brake 7).
  - reflexivity.
  - reflexivity.
Defined.

(** ** The second loop, step by step *)

Section NotifyEffects.

Context {App : Type}.
Variables KeepC KeepD : Gamepad -> Gamepad -> Prop.
Variable bp : @Bluepad32 App.
Variable connected : Z.

Local Abbreviation prev := (_prevConnectedGamepads bp).

(** The three ways one iteration of the second loop can succeed. *)
Lemma notify_body_cases k gs (app : App) log t' :
  notify_body bp connected k (gs, app, log) = Some t' ->
  (Z.testbit connected (Z.of_nat k) = Z.testbit prev (Z.of_nat k)
   /\ t' = (gs, app, log))
  \/ (exists g cb,
        Z.testbit connected (Z.of_nat k) = true
        /\ Z.testbit prev (Z.of_nat k) = false
        /\ gs !! k = Some g
        /\ _onConnect bp = Some cb
        /\ t' = (<[k := fst (cb k (set_connected g true) app)]> gs,
                 snd (cb k (set_connected g true) app),
                 log ++ [Connected k (set_connected g true)]))
  \/ (exists g cb,
        Z.testbit connected (Z.of_nat k) = false
        /\ Z.testbit prev (Z.of_nat k) = true
        /\ gs !! k = Some g
        /\ _onDisconnect bp = Some cb
        /\ t' = (<[k := set_connected (fst (cb k g app)) false]> gs,
                 snd (cb k g app),
                 log ++ [Disconnected k g])).
Proof.
  unfold notify_body. rewrite bit_unchanged_test, bit_current_test.
  destruct (Z.testbit connected (Z.of_nat k)) eqn:Hcur,
           (Z.testbit prev (Z.of_nat k)) eqn:Hprev; cbn [Bool.eqb negb].
  - intros [= <-]. left. split; reflexivity.
  - destruct (gs !! k) as [g|]; [|discriminate].
    destruct (_onConnect bp) as [cb|]; [|discriminate].
    destruct (cb k (set_connected g true) app) as [g2 app2] eqn:Hcb.
    intros [= <-]. right; left. exists g, cb. rewrite Hcb. repeat split.
  - destruct (gs !! k) as [g|]; [|discriminate].
    destruct (_onDisconnect bp) as [cb|]; [|discriminate].
    destruct (cb k g app) as [g2 app2] eqn:Hcb.
    intros [= <-]. right; right. exists g, cb. rewrite Hcb. repeat split.
  - intros [= <-]. left. split; reflexivity.
Qed.

Lemma replay_snoc log e (app : App) :
  replay bp (log ++ [e]) app
  = match callback_for bp e with
    | Some cb => snd (cb (event_slot e) (event_gamepad e) (replay bp log app))
    | None => replay bp log app
    end.
Proof. unfold replay. now rewrite fold_left_app. Qed.

Lemma slot_kept_insert gs1 gs' i k g :
  i <> k ->
  slot_kept KeepC KeepD prev connected gs1 gs' i ->
  slot_kept KeepC KeepD prev connected gs1 (<[k := g]> gs') i.
Proof.
  intros Hne Hkept g1 Hg1. rewrite list_lookup_insert_ne by congruence.
  now apply Hkept.
Qed.

Hypothesis connect_respects : respects KeepC (_onConnect bp).
Hypothesis disconnect_respects : respects KeepD (_onDisconnect bp).

Lemma notify_effect_step gs1 (app0 : App) k t t' :
  notify_effect_inv KeepC KeepD bp connected gs1 app0 k t ->
  notify_body bp connected k t = Some t' ->
  notify_effect_inv KeepC KeepD bp connected gs1 app0 (S k) t'.
Proof.
  destruct t as [[gs' app] log].
  intros (Hlen & Hrest & Hdone & Happ & Hreg) Hstep.
  apply notify_body_cases in Hstep.
  destruct Hstep as [[Hsame ->]
                    |[(g & cb & Hcur & Hprev & Hg & Hcb & ->)
                     |(g & cb & Hcur & Hprev & Hg & Hcb & ->)]].
  - repeat split; try assumption.
    + intros j Hj. apply Hrest. lia.
    + intros i Hi. destruct (Nat.eq_dec i k) as [->|Hne]; [|apply Hdone; lia].
      intros g1 Hg1. exists g1. rewrite Hrest by lia.
      split; [exact Hg1|]. now rewrite Hsame, eqb_reflx.
  - assert (Hk : k < length gs') by (eapply lookup_lt_Some; eauto).
    repeat split.
    + now rewrite length_insert.
    + intros j Hj. rewrite list_lookup_insert_ne by lia. apply Hrest. lia.
    + intros i Hi. destruct (Nat.eq_dec i k) as [->|Hne];
        [|apply slot_kept_insert; [exact Hne | apply Hdone; lia]].
      intros g1 Hg1. rewrite Hrest in Hg by lia.
      assert (g1 = g) as -> by congruence.
      eexists. rewrite list_lookup_insert_eq by exact Hk.
      split; [reflexivity|]. rewrite Hcur, Hprev. cbn [Bool.eqb].
      apply (connect_respects cb Hcb).
    + rewrite replay_snoc. unfold callback_for. cbn [is_connect].
      rewrite Hcb. cbn [event_slot event_gamepad]. now rewrite Happ.
    + intros e. rewrite in_app_iff. intros [Hin|[<-|[]]]; [now apply Hreg|].
      unfold callback_for. cbn [is_connect]. rewrite Hcb. eauto.
  - assert (Hk : k < length gs') by (eapply lookup_lt_Some; eauto).
    repeat split.
    + now rewrite length_insert.
    + intros j Hj. rewrite list_lookup_insert_ne by lia. apply Hrest. lia.
    + intros i Hi. destruct (Nat.eq_dec i k) as [->|Hne];
        [|apply slot_kept_insert; [exact Hne | apply Hdone; lia]].
      intros g1 Hg1. rewrite Hrest in Hg by lia.
      assert (g1 = g) as -> by congruence.
      eexists. rewrite list_lookup_insert_eq by exact Hk.
      split; [reflexivity|]. rewrite Hcur, Hprev. cbn [Bool.eqb].
      eexists. split; [apply (disconnect_respects cb Hcb) | reflexivity].
    + rewrite replay_snoc. unfold callback_for. cbn [is_connect].
      rewrite Hcb. cbn [event_slot event_gamepad]. now rewrite Happ.
    + intros e. rewrite in_app_iff. intros [Hin|[<-|[]]]; [now apply Hreg|].
      unfold callback_for. cbn [is_connect]. rewrite Hcb. eauto.
Qed.

Lemma notify_effect_inv_0 gs1 (app0 : App) :
  notify_effect_inv KeepC KeepD bp connected gs1 app0 0 (gs1, app0, []).
Proof.
  repeat split; try (intros; lia). intros e [].
Qed.

Lemma for_slots_notify_effects n gs1 (app0 : App) t :
  for_slots (notify_body bp connected) n (gs1, app0, []) = Some t ->
  notify_effect_inv KeepC KeepD bp connected gs1 app0 n t.
Proof.
  intros Hrun.
  apply (for_slots_inv (notify_body bp connected)
           (notify_effect_inv KeepC KeepD bp connected gs1 app0) n
           (gs1, app0, []) t);
    [apply notify_effect_inv_0 | | exact Hrun].
  intros k u u' _. apply notify_effect_step.
Qed.

End NotifyEffects.

(** ** More about one pass *)

Lemma respects_any {App : Type} (o : option (@GamepadCallback App)) :
  respects any_gamepad o.
Proof. intros cb _ i g a. exact I. Qed.

Section PassEffects.

Context {App : Type}.
Variable ARDUINO_MAX_GAMEPADS : nat.

Local Abbreviation MAX := ARDUINO_MAX_GAMEPADS.
Local Abbreviation Bp := (@Bluepad32 App).

(** What a completed pass did to the table and to the application. *)
Lemma update_effects KeepC KeepD platform (bp : Bp) app bp' app' log :
  respects KeepC (_onConnect bp) ->
  respects KeepD (_onDisconnect bp) ->
  update MAX platform bp app = Some (bp', app', log) ->
  app' = replay bp log app
  /\ (forall e, In e log -> is_Some (callback_for bp e))
  /\ (forall i, i < MAX ->
        slot_kept KeepC KeepD (_prevConnectedGamepads bp)
          (_prevConnectedGamepads bp')
          (polled_upto platform MAX (_gamepads bp)) (_gamepads bp') i).
Proof.
  intros Hc Hd. unfold update. intros Hrun.
  destruct (poll MAX platform (_gamepads bp)) as [[gs1 c]|] eqn:Hpoll;
    [|discriminate].
  destruct (poll_spec _ _ _ _ _ Hpoll) as (-> & _ & _ & _).
  destruct (Z.eqb_spec c (_prevConnectedGamepads bp)) as [Heq|Hne].
  - inversion Hrun; subst; clear Hrun. cbn.
    repeat split.
    + intros e [].
    + intros i _ g1 Hg1. exists g1. split; [exact Hg1|].
      now rewrite eqb_reflx.
  - unfold notify in Hrun.
    destruct (for_slots _ _ _) as [[[gs' app2] log2]|] eqn:Hloop;
      [|discriminate].
    inversion Hrun; subst; clear Hrun. cbn.
    apply (for_slots_notify_effects KeepC KeepD bp c Hc Hd) in Hloop.
    destruct Hloop as (_ & _ & Hdone & Happ & Hreg).
    repeat split; assumption.
Qed.

(** The notifications of a completed pass for one slot. *)
Lemma pass_events_of platform (bp : Bp) app bp' app' log i :
  update MAX platform bp app = Some (bp', app', log) ->
  i < MAX ->
  exists g0,
    _gamepads bp !! i = Some g0
    /\ Z.testbit (_prevConnectedGamepads bp') (Z.of_nat i)
       = negb (idx (platform i (_state g0)) =? -1)%Z
    /\ events_of i log
       = if Bool.eqb (Z.testbit (_prevConnectedGamepads bp') (Z.of_nat i))
                     (Z.testbit (_prevConnectedGamepads bp) (Z.of_nat i))
         then []
         else [if Z.testbit (_prevConnectedGamepads bp') (Z.of_nat i)
               then Connected i (set_connected (refresh platform i g0) true)
               else Disconnected i (refresh platform i g0)].
Proof.
  intros Hrun Hi.
  destruct (update_spec _ _ _ _ _ _ _ Hrun) as (c & Hpoll & -> & -> & _).
  destruct (poll_spec _ _ _ _ _ Hpoll) as (_ & Hlen & _ & _).
  destruct (lookup_lt_is_Some_2 (_gamepads bp) i) as [g0 Hg]; [lia|].
  exists g0. split; [exact Hg|].
  split; [exact (poll_bit _ _ _ _ _ _ _ Hpoll Hi Hg)|].
  rewrite events_of_pass_log, (proj2 (Nat.ltb_lt i MAX)) by exact Hi.
  unfold slot_event. rewrite (polled_slot _ _ _ _ _ Hi Hg).
  destruct (Bool.eqb _ _); [reflexivity|].
  now destruct (Z.testbit c (Z.of_nat i)).
Qed.

(** A pass over a complete table in which no presence bit changed. *)
Lemma update_quiet platform (bp : Bp) app :
  MAX <= length (_gamepads bp) ->
  (forall i, i < MAX ->
     presence platform (_gamepads bp) i
     = Z.testbit (_prevConnectedGamepads bp) (Z.of_nat i)) ->
  exists bp', update MAX platform bp app = Some (bp', app, []).
Proof.
  intros Hlen Hsame. unfold update.
  destruct (poll_total MAX platform (_gamepads bp) Hlen) as [c Hpoll].
  rewrite Hpoll.
  destruct (_ =? _)%Z; [eexists; reflexivity|].
  unfold notify. rewrite for_slots_notify_silent; [eexists; reflexivity|].
  intros i Hi. rewrite <- (Hsame i Hi).
  destruct (poll_spec _ _ _ _ _ Hpoll) as (_ & _ & _ & Hbits).
  now rewrite Hbits, (proj2 (Nat.ltb_lt i MAX)) by exact Hi.
Qed.

Lemma pass_log_slots prev c gs n :
  n <= length gs ->
  map event_slot (pass_log prev c gs n) = changed_slots prev c n.
Proof.
  unfold changed_slots. induction n as [|k IH]; intros Hlen; [reflexivity|].
  rewrite pass_log_S, seq_S, List.filter_app, map_app, IH by lia.
  f_equal. cbn [Nat.add List.filter]. unfold slot_event.
  destruct (lookup_lt_is_Some_2 gs k) as [g ->]; [lia|].
  destruct (Z.testbit c (Z.of_nat k)), (Z.testbit prev (Z.of_nat k));
    reflexivity.
Qed.

Lemma events_of_In i e log : In e (events_of i log) -> In e log.
Proof. unfold events_of. intros Hin. now apply List.filter_In in Hin. Qed.

Lemma events_of_app i l1 l2 :
  events_of i (l1 ++ l2) = events_of i l1 ++ events_of i l2.
Proof. apply List.filter_app. Qed.

End PassEffects.

(** ** Further properties of the Connection Lifecycle Monitor *)

Section PassExtras.

Context {App : Type}.
Variable ARDUINO_MAX_GAMEPADS : nat.

Local Abbreviation MAX := ARDUINO_MAX_GAMEPADS.
Local Abbreviation Bp := (@Bluepad32 App).

(** X2.  Once both callbacks are registered on a complete table, every
    sequence of passes completes, whatever the platform reports, and leaves
    a complete table with the same callbacks. *)
Theorem run_passes_complete platforms (bp : Bp) app :
  MAX <= length (_gamepads bp) ->
  is_Some (_onConnect bp) -> is_Some (_onDisconnect bp) ->
  exists bp' app' log,
    run_passes MAX platforms bp app = Some (bp', app', log)
    /\ length (_gamepads bp') = length (_gamepads bp)
    /\ _onConnect bp' = _onConnect bp
    /\ _onDisconnect bp' = _onDisconnect bp.
Proof.
  revert bp app.
  induction platforms as [|p ps IH]; intros bp app Hlen Hc Hd; cbn.
  - exists bp, app, []. repeat split.
  - destruct (update_total MAX p bp app Hlen Hc Hd)
      as (bp1 & app1 & log1 & Hrun).
    rewrite Hrun.
    destruct (update_spec _ _ _ _ _ _ _ Hrun)
      as (_ & _ & _ & _ & Hlen1 & _ & Hc1 & Hd1).
    destruct (IH bp1 app1) as (bp2 & app2 & log2 & Hrest & Hlen2 & Hc2 & Hd2);
      [lia | now rewrite Hc1 | now rewrite Hd1 |].
    rewrite Hrest. exists bp2, app2, (log1 ++ log2).
    split; [reflexivity|]. repeat split; congruence.
Qed.

(** X3.  With at most 31 slots, the bitmask stored by a completed pass has
    no bit outside the slots and fits a 32-bit [int]: it is non-negative,
    below [2 ^ ARDUINO_MAX_GAMEPADS] and at most [2 ^ 31 - 1]. *)
Theorem stored_mask_within_slots platform (bp : Bp) app bp' app' log :
  MAX <= 31 ->
  update MAX platform bp app = Some (bp', app', log) ->
  (0 <= _prevConnectedGamepads bp' < 2 ^ Z.of_nat MAX)%Z
  /\ (_prevConnectedGamepads bp' <= 2 ^ 31 - 1)%Z.
Proof.
  intros Hmax Hrun.
  destruct (update_spec _ _ _ _ _ _ _ Hrun) as (c & Hpoll & -> & _).
  destruct (poll_spec _ _ _ _ _ Hpoll) as (_ & _ & Hrange & _).
  split; [exact Hrange|].
  pose proof (poll_mask_int_range _ _ _ _ _ Hmax Hpoll). lia.
Qed.

(** X4.  A slot whose presence did not change gets no notification, even in
    a pass that notifies other slots; its entry after the pass holds the
    freshly fetched snapshot and the live flag it had. *)
Theorem unchanged_slot_refreshed_silently
    platform (bp : Bp) app bp' app' log i g0 :
  update MAX platform bp app = Some (bp', app', log) ->
  i < MAX ->
  _gamepads bp !! i = Some g0 ->
  Z.testbit (_prevConnectedGamepads bp) (Z.of_nat i)
  = negb (idx (platform i (_state g0)) =? -1)%Z ->
  events_of i log = []
  /\ _gamepads bp' !! i
     = Some {| _connected := _connected g0;
               _state := platform i (_state g0) |}.
Proof.
  intros Hrun Hi Hg Hsame.
  destruct (pass_events_of _ _ _ _ _ _ _ _ Hrun Hi)
    as (g0' & Hg' & Hbit & Hev).
  assert (g0' = g0) as -> by congruence.
  split.
  - now rewrite Hev, Hbit, Hsame, eqb_reflx.
  - destruct (update_spec _ _ _ _ _ _ _ Hrun)
      as (c & _ & Hc & _ & _ & Hdone & _).
    specialize (Hdone i Hi). unfold slot_settled in Hdone.
    rewrite <- Hc, Hbit, Hsame, eqb_reflx in Hdone.
    now rewrite Hdone, (polled_slot _ _ _ _ _ Hi Hg).
Qed.

(** X5.  The slots notified by a completed pass are exactly the slots whose
    bit differs between the bitmask stored before and the one stored after,
    each once, in increasing order. *)
Theorem notified_slots_are_changed_slots
    platform (bp : Bp) app bp' app' log :
  update MAX platform bp app = Some (bp', app', log) ->
  map event_slot log
  = changed_slots (_prevConnectedGamepads bp) (_prevConnectedGamepads bp') MAX.
Proof.
  intros Hrun.
  destruct (update_spec _ _ _ _ _ _ _ Hrun) as (c & Hpoll & -> & -> & _).
  destruct (poll_spec _ _ _ _ _ Hpoll) as (_ & Hlen & _ & _).
  apply pass_log_slots. now rewrite polled_upto_length.
Qed.

(** X6.  Every notification of a completed pass is for a slot of the table
    whose bit flipped in the direction of the notification (0 to 1 for a
    connect, 1 to 0 for a disconnect), and its argument carries the snapshot
    fetched for that slot in the pass. *)
Theorem notification_matches_transition
    platform (bp : Bp) app bp' app' log e :
  update MAX platform bp app = Some (bp', app', log) ->
  In e log ->
  event_slot e < MAX
  /\ Z.testbit (_prevConnectedGamepads bp) (Z.of_nat (event_slot e))
     = negb (is_connect e)
  /\ Z.testbit (_prevConnectedGamepads bp') (Z.of_nat (event_slot e))
     = is_connect e
  /\ exists g0,
       _gamepads bp !! event_slot e = Some g0
       /\ _state (event_gamepad e)
          = platform (event_slot e) (_state g0).
Proof.
  intros Hrun Hin.
  destruct (update_spec _ _ _ _ _ _ _ Hrun) as (c & Hpoll & -> & -> & _).
  apply pass_log_In in Hin. destruct Hin as [Hi Hev].
  split; [exact Hi|].
  destruct (poll_spec _ _ _ _ _ Hpoll) as (_ & Hlen & _ & _).
  destruct (lookup_lt_is_Some_2 (_gamepads bp) (event_slot e)) as [g0 Hg];
    [lia|].
  unfold slot_event in Hev. rewrite (polled_slot _ _ _ _ _ Hi Hg) in Hev.
  destruct (Z.testbit c (Z.of_nat (event_slot e))),
           (Z.testbit (_prevConnectedGamepads bp) (Z.of_nat (event_slot e)));
    cbn [Bool.eqb] in Hev; try discriminate;
    injection Hev as <-; cbn; repeat split; exists g0; split;
    solve [exact Hg | reflexivity].
Qed.

(** X8.  A pass that finds a changed slot while the callback owed to that
    change (connect for a controller that appeared, disconnect for one that
    left) was never registered does not complete. *)
Theorem unregistered_callback_stops_pass platform (bp : Bp) app i g0 :
  i < MAX ->
  _gamepads bp !! i = Some g0 ->
  Z.testbit (_prevConnectedGamepads bp) (Z.of_nat i)
  <> negb (idx (platform i (_state g0)) =? -1)%Z ->
  (if negb (idx (platform i (_state g0)) =? -1)%Z
   then _onConnect bp else _onDisconnect bp) = None ->
  update MAX platform bp app = None.
Proof.
  intros Hi Hg Hdiff Hnone.
  destruct (update MAX platform bp app) as [[[bp' app'] log]|] eqn:Hrun;
    [exfalso|reflexivity].
  destruct (pass_events_of _ _ _ _ _ _ _ _ Hrun Hi)
    as (g0' & Hg' & Hbit & Hev).
  assert (g0' = g0) as -> by congruence.
  destruct (update_effects MAX any_gamepad any_gamepad _ _ _ _ _ _
              (respects_any _) (respects_any _) Hrun) as (_ & Hreg & _).
  rewrite Hbit in Hev.
  destruct (negb (idx (platform i (_state g0)) =? -1)%Z),
           (Z.testbit (_prevConnectedGamepads bp) (Z.of_nat i));
    cbn [Bool.eqb] in Hev; try congruence;
    (match type of Hev with
     | _ = [?e] =>
         destruct (Hreg e) as [cb Hcb];
         [apply (events_of_In i); rewrite Hev; now left
         |unfold callback_for in Hcb; cbn [is_connect] in Hcb; congruence]
     end).
Qed.

End PassExtras.

(** ** Across passes *)

Section AcrossPasses.

Context {App : Type}.
Variable ARDUINO_MAX_GAMEPADS : nat.

Local Abbreviation MAX := ARDUINO_MAX_GAMEPADS.
Local Abbreviation Bp := (@Bluepad32 App).

(** X9.  On a freshly constructed object, with no callback registered yet,
    a pass completes without any notification as long as the platform
    reports every slot empty. *)
Theorem fresh_object_idle_pass platform g0 (app : App) :
  (forall i, i < MAX -> idx (platform i (_state g0)) = (-1)%Z) ->
  exists bp',
    update MAX platform (Bluepad32_new MAX g0) app = Some (bp', app, []).
Proof.
  intros Hempty. apply update_quiet.
  - cbn. now rewrite length_replicate.
  - intros i Hi. cbn. unfold presence.
    rewrite lookup_replicate_2 by exact Hi.
    now rewrite (Hempty i Hi), Z.bits_0.
Qed.

(** X10.  Notifications are edge-triggered: a pass that follows a completed
    pass and reads the same presence for every slot makes no notification
    and leaves the application state alone. *)
Theorem steady_presence_is_announced_once
    p q (bp : Bp) app bp1 app1 log1 :
  update MAX p bp app = Some (bp1, app1, log1) ->
  (forall i, i < MAX ->
     presence q (_gamepads bp1) i = presence p (_gamepads bp) i) ->
  exists bp2, update MAX q bp1 app1 = Some (bp2, app1, []).
Proof.
  intros Hrun Hsame.
  destruct (update_spec _ _ _ _ _ _ _ Hrun)
    as (c & Hpoll & Hc & _ & Hlen & _).
  destruct (poll_spec _ _ _ _ _ Hpoll) as (_ & Hmax & _ & Hbits).
  apply update_quiet; [lia|].
  intros i Hi. rewrite (Hsame i Hi), Hc, Hbits.
  now rewrite (proj2 (Nat.ltb_lt i MAX)) by exact Hi.
Qed.

(** One pass keeps the live flags in step with the stored bitmask. *)
Lemma flags_track_mask_step platform (bp : Bp) app bp' app' log :
  respects same_flag (_onConnect bp) ->
  flags_track_mask MAX bp ->
  update MAX platform bp app = Some (bp', app', log) ->
  flags_track_mask MAX bp'.
Proof.
  intros Hkeep Hflags Hrun i g Hi Hg.
  destruct (update_effects MAX same_flag any_gamepad _ _ _ _ _ _
              Hkeep (respects_any _) Hrun) as (_ & _ & Hkept).
  destruct (pass_events_of _ _ _ _ _ _ _ _ Hrun Hi) as (g0 & Hg0 & _ & _).
  destruct (Hkept i Hi _ (polled_slot _ _ _ _ _ Hi Hg0)) as (g' & Hg' & Hcase).
  assert (g' = g) as -> by congruence.
  destruct (Z.testbit (_prevConnectedGamepads bp') (Z.of_nat i)) eqn:Hnew,
           (Z.testbit (_prevConnectedGamepads bp) (Z.of_nat i)) eqn:Hold;
    cbn [Bool.eqb] in Hcase.
  - subst g. cbn. rewrite (Hflags i g0 Hi Hg0). exact Hold.
  - exact Hcase.
  - destruct Hcase as (gm & _ & ->). reflexivity.
  - subst g. cbn. rewrite (Hflags i g0 Hi Hg0). exact Hold.
Qed.

(** X11.  If the connect callback does not alter the live flag of its
    pointee, every completed sequence of passes keeps the live flags in step
    with the stored bitmask: slot [i] is live exactly when bit [i] is set. *)
Theorem live_flags_track_mask platforms (bp : Bp) app bp' app' log :
  respects same_flag (_onConnect bp) ->
  flags_track_mask MAX bp ->
  run_passes MAX platforms bp app = Some (bp', app', log) ->
  flags_track_mask MAX bp'.
Proof.
  revert bp app bp' app' log.
  induction platforms as [|p ps IH];
    intros bp app bp' app' log Hkeep Hflags Hrun; cbn in Hrun.
  - now inversion Hrun; subst.
  - destruct (update MAX p bp app) as [[[bp1 app1] log1]|] eqn:Hpass;
      [|discriminate].
    destruct (run_passes MAX ps bp1 app1) as [[[bp2 app2] log2]|] eqn:Hrest;
      [|discriminate].
    inversion Hrun; subst; clear Hrun.
    destruct (update_spec _ _ _ _ _ _ _ Hpass)
      as (_ & _ & _ & _ & _ & _ & Hc & _).
    apply (IH _ _ _ _ _ ltac:(now rewrite Hc)
              (flags_track_mask_step _ _ _ _ _ _ Hkeep Hflags Hpass) Hrest).
Qed.

(** X12.  If neither callback alters the state of its pointee, every slot
    holds, after a completed pass, the snapshot fetched for it in that pass,
    whether the slot was notified or not. *)
Theorem states_are_fetched_snapshots
    platform (bp : Bp) app bp' app' log i g0 :
  respects same_state (_onConnect bp) ->
  respects same_state (_onDisconnect bp) ->
  update MAX platform bp app = Some (bp', app', log) ->
  i < MAX ->
  _gamepads bp !! i = Some g0 ->
  exists g,
    _gamepads bp' !! i = Some g
    /\ _state g = platform i (_state g0).
Proof.
  intros Hc Hd Hrun Hi Hg0.
  destruct (update_effects MAX same_state same_state _ _ _ _ _ _ Hc Hd Hrun)
    as (_ & _ & Hkept).
  destruct (Hkept i Hi _ (polled_slot _ _ _ _ _ Hi Hg0)) as (g & Hg & Hcase).
  exists g. split; [exact Hg|].
  destruct (Bool.eqb _ _).
  - now subst g.
  - destruct (Z.testbit _ _).
    + exact Hcase.
    + destruct Hcase as (gm & Hgm & ->). exact Hgm.
Qed.

(** X13.  Over any completed sequence of passes, the notifications for one
    slot alternate between connect and disconnect, starting with the one
    opposite to the slot's bit before the first pass: no slot is announced
    connected twice without a disconnect in between, nor the reverse. *)
Theorem slot_notifications_alternate
    platforms (bp : Bp) app bp' app' log i :
  run_passes MAX platforms bp app = Some (bp', app', log) ->
  i < MAX ->
  alternates (Z.testbit (_prevConnectedGamepads bp) (Z.of_nat i))
    (events_of i log) = true.
Proof.
  revert bp app bp' app' log.
  induction platforms as [|p ps IH]; intros bp app bp' app' log Hrun Hi;
    cbn in Hrun.
  - now inversion Hrun.
  - destruct (update MAX p bp app) as [[[bp1 app1] log1]|] eqn:Hpass;
      [|discriminate].
    destruct (run_passes MAX ps bp1 app1) as [[[bp2 app2] log2]|] eqn:Hrest;
      [|discriminate].
    inversion Hrun; subst; clear Hrun.
    specialize (IH _ _ _ _ _ Hrest Hi).
    destruct (pass_events_of _ _ _ _ _ _ _ _ Hpass Hi)
      as (g0 & _ & _ & Hev).
    rewrite events_of_app, Hev.
    destruct (Z.testbit (_prevConnectedGamepads bp1) (Z.of_nat i)),
             (Z.testbit (_prevConnectedGamepads bp) (Z.of_nat i));
      cbn; exact IH.
Qed.

End AcrossPasses.

(** ** The further properties on a table of four slots *)

Lemma run_passes_complete_witness :
  exists bp' app' log,
    run_passes 4 three_polls (bp_ready 4) (0, 0)%nat = Some (bp', app', log)
    /\ length (_gamepads bp') = length (_gamepads (bp_ready 4))
    /\ _onConnect bp' = _onConnect (bp_ready 4)
    /\ _onDisconnect bp' = _onDisconnect (bp_ready 4).
Proof.
  apply (run_passes_complete 4 three_polls (bp_ready 4) (0, 0)%nat).
  - cbn. lia.
  - eexists; reflexivity.
  - eexists; reflexivity.
Defined.

Lemma stored_mask_within_slots_witness :
  (0 <= _prevConnectedGamepads bp_two_live < 2 ^ Z.of_nat 4)%Z
  /\ (_prevConnectedGamepads bp_two_live <= 2 ^ 31 - 1)%Z.
Proof.
  apply (stored_mask_within_slots 4 (platform_with [0; 2]%nat)
           (bp_ready 4) (0, 0)%nat bp_two_live (2, 0)%nat two_live_log).
  - lia.
  - reflexivity.
Defined.

Lemma unchanged_slot_refreshed_silently_witness :
  events_of 2 (run_log 4 [platform_with [2]%nat] bp_two_live (0, 0)%nat) = []
  /\ _gamepads (run_bp 4 [platform_with [2]%nat] bp_two_live (0, 0)%nat)
       !! 2%nat
     = Some {| _connected := _connected (live_gamepad 2);
               _state := platform_with [2]%nat 2 (_state (live_gamepad 2)) |}.
Proof.
  apply (unchanged_slot_refreshed_silently 4 (platform_with [2]%nat)
           bp_two_live (0, 0)%nat
           (run_bp 4 [platform_with [2]%nat] bp_two_live (0, 0)%nat)
           (run_app 4 [platform_with [2]%nat] bp_two_live (0, 0)%nat)
           (run_log 4 [platform_with [2]%nat] bp_two_live (0, 0)%nat)
           2 (live_gamepad 2)).
  - reflexivity.
  - lia.
  - reflexivity.
  - reflexivity.
Defined.

Lemma notified_slots_are_changed_slots_witness :
  map event_slot two_live_log
  = changed_slots (_prevConnectedGamepads (bp_ready 4))
      (_prevConnectedGamepads bp_two_live) 4.
Proof.
  apply (notified_slots_are_changed_slots 4 (platform_with [0; 2]%nat)
           (bp_ready 4) (0, 0)%nat bp_two_live (2, 0)%nat two_live_log).
  reflexivity.
Defined.

Lemma notification_matches_transition_witness :
  event_slot (Connected 2 (live_gamepad 2)) < 4
  /\ Z.testbit (_prevConnectedGamepads (bp_ready 4))
       (Z.of_nat (event_slot (Connected 2 (live_gamepad 2))))
     = negb (is_connect (Connected 2 (live_gamepad 2)))
  /\ Z.testbit (_prevConnectedGamepads bp_two_live)
       (Z.of_nat (event_slot (Connected 2 (live_gamepad 2))))
     = is_connect (Connected 2 (live_gamepad 2))
  /\ exists g0,
       _gamepads (bp_ready 4) !! event_slot (Connected 2 (live_gamepad 2))
       = Some g0
       /\ _state (event_gamepad (Connected 2 (live_gamepad 2)))
          = platform_with [0; 2]%nat
              (event_slot (Connected 2 (live_gamepad 2))) (_state g0).
Proof.
  apply (notification_matches_transition 4 (platform_with [0; 2]%nat)
           (bp_ready 4) (0, 0)%nat bp_two_live (2, 0)%nat two_live_log
           (Connected 2 (live_gamepad 2))).
  - reflexivity.
  - cbn. tauto.
Defined.

Lemma unregistered_callback_stops_pass_witness :
  update 4 (platform_with [1]%nat)
    (Bluepad32_new 4 default_gamepad) (0, 0)%nat = None.
Proof.
  apply (unregistered_callback_stops_pass 4 (platform_with [1]%nat)
           (Bluepad32_new 4 default_gamepad) (0, 0)%nat 1 default_gamepad).
  - lia.
  - reflexivity.
  - vm_compute. discriminate.
  - reflexivity.
Defined.

Lemma fresh_object_idle_pass_witness :
  exists bp',
    update 4 (platform_with [])
      (Bluepad32_new 4 default_gamepad) (0, 0)%nat
    = Some (bp', (0, 0)%nat, []).
Proof.
  apply (fresh_object_idle_pass 4 (platform_with []) default_gamepad
           (0, 0)%nat).
  intros i Hi. reflexivity.
Defined.

Lemma steady_presence_is_announced_once_witness :
  exists bp2,
    update 4 (platform_with [0; 2]%nat) bp_two_live (2, 0)%nat
    = Some (bp2, (2, 0)%nat, []).
Proof.
  apply (steady_presence_is_announced_once 4 (platform_with [0; 2]%nat)
           (platform_with [0; 2]%nat) (bp_ready 4) (0, 0)%nat
           bp_two_live (2, 0)%nat two_live_log).
  - reflexivity.
  - intros i Hi.
    destruct i as [|[|[|[|i]]]]; [reflexivity | reflexivity | reflexivity
                                 | reflexivity | lia].
Defined.

Lemma live_flags_track_mask_witness :
  flags_track_mask 4 (run_bp 4 three_polls (bp_scrubbing 4) []).
Proof.
  apply (live_flags_track_mask 4 three_polls (bp_scrubbing 4) []
           (run_bp 4 three_polls (bp_scrubbing 4) [])
           (run_app 4 three_polls (bp_scrubbing 4) [])
           (run_log 4 three_polls (bp_scrubbing 4) [])).
  - intros cb Hcb i g a. injection Hcb as <-. reflexivity.
  - intros i g Hi Hg.
    destruct i as [|[|[|[|i]]]]; [| | | | lia];
      injection Hg as <-; reflexivity.
  - reflexivity.
Defined.

Lemma states_are_fetched_snapshots_witness :
  exists g,
    _gamepads (run_bp 4 [platform_with [0; 2]%nat] (bp_noting 4) []) !! 2%nat
    = Some g
    /\ _state g = platform_with [0; 2]%nat 2 (_state default_gamepad).
Proof.
  apply (states_are_fetched_snapshots 4 (platform_with [0; 2]%nat)
           (bp_noting 4) []
           (run_bp 4 [platform_with [0; 2]%nat] (bp_noting 4) [])
           (run_app 4 [platform_with [0; 2]%nat] (bp_noting 4) [])
           (run_log 4 [platform_with [0; 2]%nat] (bp_noting 4) [])
           2 default_gamepad).
  - intros cb Hcb i g a. injection Hcb as <-. reflexivity.
  - intros cb Hcb i g a. injection Hcb as <-. reflexivity.
  - reflexivity.
  - lia.
  - reflexivity.
Defined.

Lemma slot_notifications_alternate_witness :
  alternates (Z.testbit (_prevConnectedGamepads (bp_ready 4)) (Z.of_nat 0))
    (events_of 0 (run_log 4 three_polls (bp_ready 4) (0, 0)%nat)) = true.
Proof.
  apply (slot_notifications_alternate 4 three_polls (bp_ready 4) (0, 0)%nat
           (run_bp 4 three_polls (bp_ready 4) (0, 0)%nat)
           (run_app 4 three_polls (bp_ready 4) (0, 0)%nat)
           (run_log 4 three_polls (bp_ready 4) (0, 0)%nat) 0).
  - reflexivity.
  - lia.
Defined.

(** ** Registration *)

Section Registration.

Context {App : Type}.
Variable ARDUINO_MAX_GAMEPADS : nat.

Local Abbreviation MAX := ARDUINO_MAX_GAMEPADS.
Local Abbreviation Bp := (@Bluepad32 App).

Lemma setup_all_keeps regs (bp : Bp) :
  _prevConnectedGamepads (setup_all bp regs) = _prevConnectedGamepads bp
  /\ _gamepads (setup_all bp regs) = _gamepads bp.
Proof.
  revert bp. induction regs as [|r rs IH]; intros bp; [split; reflexivity|].
  unfold setup_all in *. cbn [fold_left].
  destruct (IH (setup bp (fst r) (snd r))) as [-> ->].
  split; reflexivity.
Qed.

(** Only the last call of [setup] in a sequence leaves a trace. *)
Lemma setup_all_last regs (bp : Bp) onConnect onDisconnect :
  setup_all bp (regs ++ [(onConnect, onDisconnect)])
  = setup bp onConnect onDisconnect.
Proof.
  unfold setup_all. rewrite fold_left_app. cbn [fold_left fst snd].
  fold (setup_all bp regs).
  destruct (setup_all_keeps regs bp) as [Hp Hg].
  unfold setup. now rewrite Hp, Hg.
Qed.

Lemma replay_registered (bp : Bp) onConnect onDisconnect log app :
  _onConnect bp = Some onConnect ->
  _onDisconnect bp = Some onDisconnect ->
  replay bp log app = invoke onConnect onDisconnect log app.
Proof.
  intros Hc Hd. unfold replay, invoke. revert app.
  induction log as [|e log IH]; intros app; [reflexivity|].
  cbn [fold_left]. rewrite <- IH. f_equal.
  unfold callback_for. destruct (is_connect e); now rewrite ?Hc, ?Hd.
Qed.

(** C9.  After any sequence of registrations the object is the one the last
    registration alone would give.  A pass on it completes, notifies every
    slot whose presence changed (and no other), and the application state it
    leaves is the one obtained by calling the connect callback of the last
    registration for each logged connect and its disconnect callback for
    each logged disconnect, in order: the callbacks of earlier registrations
    are not invoked. *)
Theorem last_registration_wins
    platform (bp : Bp) regs onConnect onDisconnect app :
  length (_gamepads bp) = MAX ->
  setup_all bp (regs ++ [(onConnect, onDisconnect)])
  = setup bp onConnect onDisconnect
  /\ exists bp' app' log,
       update MAX platform
         (setup_all bp (regs ++ [(onConnect, onDisconnect)])) app
       = Some (bp', app', log)
       /\ app' = invoke onConnect onDisconnect log app
       /\ forall i g0,
            i < MAX -> _gamepads bp !! i = Some g0 ->
            events_of i log
            = if Bool.eqb (negb (idx (platform i (_state g0)) =? -1)%Z)
                   (Z.testbit (_prevConnectedGamepads bp) (Z.of_nat i))
              then []
              else [if negb (idx (platform i (_state g0)) =? -1)%Z
                    then Connected i
                           {| _connected := true;
                              _state := platform i (_state g0) |}
                    else Disconnected i
                           {| _connected := _connected g0;
                              _state := platform i (_state g0) |}].
Proof.
  intros Hlen. split; [apply setup_all_last|].
  rewrite setup_all_last.
  destruct (update_total MAX platform (setup bp onConnect onDisconnect) app)
    as (bp' & app' & log & Hrun); [cbn; lia | cbn; eauto | cbn; eauto |].
  exists bp', app', log. split; [exact Hrun|]. split.
  - destruct (update_effects MAX any_gamepad any_gamepad _ _ _ _ _ _
                (respects_any _) (respects_any _) Hrun) as (-> & _).
    now apply replay_registered.
  - intros i g0 Hi Hg.
    destruct (pass_events_of _ _ _ _ _ _ _ _ Hrun Hi)
      as (g0' & Hg' & Hbit & Hev).
    cbn [setup _gamepads _prevConnectedGamepads] in Hg', Hev.
    assert (g0' = g0) as -> by congruence.
    rewrite Hev, Hbit. reflexivity.
Qed.

End Registration.

(** ** Agreement with 32-bit arithmetic *)

Lemma wrap32_small z : (- 2 ^ 31 <= z < 2 ^ 31)%Z -> wrap32 z = z.
Proof. intros Hz. unfold wrap32. rewrite Z.mod_small; lia. Qed.

Lemma slot_bit_int i :
  i < 31 ->
  (0 < Z.shiftl 1 (Z.of_nat i) < 2 ^ 31)%Z.
Proof.
  intros Hi. rewrite Z.shiftl_1_l. split.
  - apply Z.pow_pos_nonneg; lia.
  - apply Z.pow_lt_mono_r; lia.
Qed.

Lemma for_slots_ext {St : Type} (f g : nat -> St -> option St) n s :
  (forall k t, k < n -> f k t = g k t) ->
  for_slots f n s = for_slots g n s.
Proof.
  induction n as [|k IH]; intros Hfg; [reflexivity|].
  cbn. rewrite IH by (intros; apply Hfg; lia).
  destruct (for_slots g k s); [apply Hfg; lia | reflexivity].
Qed.

Lemma notify_body32_agrees {App : Type} (bp : @Bluepad32 App) c i st :
  i < 31 -> notify_body32 bp c i st = notify_body bp c i st.
Proof.
  intros Hi. destruct st as [[gs app] log].
  unfold notify_body32, notify_body.
  pose proof (slot_bit_int i Hi) as Hbit.
  rewrite (wrap32_small (Z.shiftl 1 (Z.of_nat i))) by lia.
  assert (Hland : forall x,
            wrap32 (Z.land x (Z.shiftl 1 (Z.of_nat i)))
            = Z.land x (Z.shiftl 1 (Z.of_nat i))).
  { intros x. apply wrap32_small. rewrite land_bit.
    rewrite Z.shiftl_1_l in Hbit. destruct (Z.testbit x (Z.of_nat i)); lia. }
  now rewrite !Hland.
Qed.

Lemma poll32_agrees platform gs n :
  n <= 31 ->
  for_slots (poll_body32 platform) n (gs, 0%Z)
  = for_slots (poll_body platform) n (gs, 0%Z).
Proof.
  induction n as [|k IH]; intros Hn; [reflexivity|].
  cbn [for_slots]. rewrite IH by lia.
  destruct (for_slots (poll_body platform) k (gs, 0%Z)) as [[gk c]|] eqn:Hk;
    [|reflexivity].
  destruct (poll_spec k platform gs gk c Hk) as (_ & _ & Hrange & _).
  unfold poll_body32, poll_body.
  destruct (gk !! k) as [g|]; [|reflexivity].
  destruct (<[k:=refresh platform k g]> gk !! k) as [g'|]; [|reflexivity].
  destruct (negb _); [|reflexivity].
  pose proof (slot_bit_int k ltac:(lia)) as Hbit.
  rewrite (wrap32_small (Z.shiftl 1 (Z.of_nat k))) by lia.
  rewrite wrap32_small; [reflexivity|].
  pose proof (lor_bit_range c k Hrange) as Hlor.
  assert ((2 ^ Z.of_nat (S k) <= 2 ^ 31)%Z)
    by (apply Z.pow_le_mono_r; lia).
  lia.
Qed.

(** X14.  With at most 31 slots, a pass computed in 32-bit two's complement
    arithmetic and the pass computed on unbounded integers are the same
    function: no shift, "or" or "and" of [update] leaves the range of
    [int]. *)
Theorem update_agrees_with_int32 {App : Type} (n : nat) platform
    (bp : @Bluepad32 App) app :
  n <= 31 ->
  update32 n platform bp app = update n platform bp app.
Proof.
  intros Hn. unfold update32, update, poll, notify.
  rewrite poll32_agrees by exact Hn.
  destruct (for_slots (poll_body platform) n (_gamepads bp, 0%Z))
    as [[gs c]|]; [|reflexivity].
  destruct (c =? _prevConnectedGamepads bp)%Z; [reflexivity|].
  rewrite (for_slots_ext (notify_body32 bp c) (notify_body bp c));
    [reflexivity|].
  intros k t Hk. apply notify_body32_agrees. lia.
Qed.

(** ** Registration and 32-bit arithmetic on a table of four slots *)

Lemma last_registration_wins_witness :
  bp_registered_twice 4 = bp_ready 4
  /\ exists bp' app' log,
       update 4 (platform_with [0; 2]%nat) (bp_registered_twice 4) (0, 0)%nat
       = Some (bp', app', log)
       /\ app' = invoke count_connect count_disconnect log (0, 0)%nat
       /\ forall i g0,
            i < 4 ->
            _gamepads (bp_fresh 4) !! i = Some g0 ->
            events_of i log
            = if Bool.eqb
                   (negb (idx (platform_with [0; 2]%nat i (_state g0))
                          =? -1)%Z)
                   (Z.testbit (_prevConnectedGamepads (bp_fresh 4))
                      (Z.of_nat i))
              then []
              else [if negb (idx (platform_with [0; 2]%nat i (_state g0))
                             =? -1)%Z
                    then Connected i
                           {| _connected := true;
                              _state := platform_with [0; 2]%nat i
                                          (_state g0) |}
                    else Disconnected i
                           {| _connected := _connected g0;
                              _state := platform_with [0; 2]%nat i
                                          (_state g0) |}].
Proof.
  apply (last_registration_wins 4 (platform_with [0; 2]%nat)
           (bp_fresh 4)
           [(count_disconnect, count_connect)]
           count_connect count_disconnect (0, 0)%nat).
  reflexivity.
Defined.

Lemma update_agrees_with_int32_witness :
  update32 4 (platform_with [0; 2]%nat) (bp_ready 4) (0, 0)%nat
  = update 4 (platform_with [0; 2]%nat) (bp_ready 4) (0, 0)%nat.
Proof.
  apply (update_agrees_with_int32 4 (platform_with [0; 2]%nat)
           (bp_ready 4) (0, 0)%nat).
  lia.
Defined.
